(** * AFIO v2 POSIX handle: lifecycle, append-only and kernel caching

    A shallow embedding of
    [include/afio/v2.0/detail/impl/posix/handle.ipp]: the destructor,
    [current_path] (the [__linux__] branch), [close], [clone],
    [set_append_only] and [set_kernel_caching] of class [handle].

    The member functions talk to the kernel through [fcntl], [fsync],
    [close], [dup] and [readlink].  The kernel is an explicit state that is
    threaded through every call; each system call appends itself to a trace
    and may be made to fail by a fault script, so that every error path of
    the C++ code can be exercised. *)

From Stdlib Require Import ZArith String Ascii List Lia Bool.
From Stdlib Require Strings.Byte.
From stdpp Require Import gmap strings pretty.

Local Open Scope Z_scope.

(** ** Constants of <fcntl.h> and <errno.h>

    The values are those of Linux on x86-64 (octal 02000, 010000, 040000
    and 04010000).  [O_SYNC] contains the [O_DSYNC] bit, as it does there. *)

Definition O_APPEND : Z := 1024.
Definition O_DSYNC : Z := 4096.
Definition O_DIRECT : Z := 16384.
Definition O_SYNC : Z := 1052672.

Definition ENOENT : Z := 2.
Definition EBADF : Z := 9.
Definition EINVAL : Z := 22.

(** ** The kernel *)

Inductive syscall : Type :=
| SysGetfl (fd : Z)                       (* fcntl(fd, F_GETFL) *)
| SysSetfl (fd : Z) (arg : Z)             (* fcntl(fd, F_SETFL, arg) *)
| SysFsync (fd : Z)
| SysClose (fd : Z)
| SysDup (fd : Z)
| SysReadlink (path : string) (bufsiz : Z).

(** A descriptor names an open file description; the status flags live in
    the description, so descriptors made by [dup] share them.  [links] is
    what [readlink] sees, procfs included.  [faults] is consumed one entry
    per system call: [Some e] makes that call fail with errno [e] and no
    effect, [None] (or an exhausted script) lets the call run. *)
Record kernel : Type := Kernel {
  fds : gmap Z nat;
  ofl : gmap nat N;
  links : gmap string string;
  errno : Z;
  faults : list (option Z);
  trace : list syscall
}.

Definition set_fds (m : gmap Z nat) (k : kernel) : kernel :=
  Kernel m (ofl k) (links k) (errno k) (faults k) (trace k).
Definition set_ofl (m : gmap nat N) (k : kernel) : kernel :=
  Kernel (fds k) m (links k) (errno k) (faults k) (trace k).
Definition set_errno (e : Z) (k : kernel) : kernel :=
  Kernel (fds k) (ofl k) (links k) e (faults k) (trace k).

(** Entering a system call: log it and take the next entry of the fault
    script. *)
Definition sys_enter (c : syscall) (k : kernel) : option Z * kernel :=
  let tr := (trace k ++ [c])%list in
  match faults k with
  | Some e :: fs => (Some e, Kernel (fds k) (ofl k) (links k) e fs tr)
  | None :: fs => (None, Kernel (fds k) (ofl k) (links k) (errno k) fs tr)
  | [] => (None, Kernel (fds k) (ofl k) (links k) (errno k) [] tr)
  end.

(** The status flags behind a descriptor, if it is open. *)
Definition status_flags (k : kernel) (fd : Z) : option N :=
  match fds k !! fd with
  | Some d => ofl k !! d
  | None => None
  end.

(** [fcntl(fd, F_GETFL)]: the flags, or -1 with errno set. *)
Definition fcntl_getfl (fd : Z) (k : kernel) : Z * kernel :=
  match sys_enter (SysGetfl fd) k with
  | (Some _, k1) => (-1, k1)
  | (None, k1) =>
      match status_flags k1 fd with
      | Some fl => (Z.of_N fl, k1)
      | None => (-1, set_errno EBADF k1)
      end
  end.

(** [fcntl(fd, F_SETFL, arg)]: 0 and the flags replaced, or -1 with errno
    set.  A flag word is never negative. *)
Definition fcntl_setfl (fd : Z) (arg : Z) (k : kernel) : Z * kernel :=
  match sys_enter (SysSetfl fd arg) k with
  | (Some _, k1) => (-1, k1)
  | (None, k1) =>
      match fds k1 !! fd with
      | Some d =>
          if arg <? 0 then (-1, set_errno EINVAL k1)
          else (0, set_ofl (<[d := Z.to_N arg]> (ofl k1)) k1)
      | None => (-1, set_errno EBADF k1)
      end
  end.

(** [fsync(fd)]. *)
Definition fsync (fd : Z) (k : kernel) : Z * kernel :=
  match sys_enter (SysFsync fd) k with
  | (Some _, k1) => (-1, k1)
  | (None, k1) =>
      match fds k1 !! fd with
      | Some _ => (0, k1)
      | None => (-1, set_errno EBADF k1)
      end
  end.

(** [::close(fd)]: the descriptor leaves the table. *)
Definition sys_close (fd : Z) (k : kernel) : Z * kernel :=
  match sys_enter (SysClose fd) k with
  | (Some _, k1) => (-1, k1)
  | (None, k1) =>
      match fds k1 !! fd with
      | Some _ => (0, set_fds (delete fd (fds k1)) k1)
      | None => (-1, set_errno EBADF k1)
      end
  end.

(** The lowest descriptor number that is not in use. *)
Definition lowest_free (m : gmap Z nat) : Z :=
  let n := Z.of_nat (size m) in
  default n (snd <$> list_find (fun i => m !! i = None) (seqZ 0 n)).

(** [::dup(fd)]: a new descriptor for the same open file description. *)
Definition dup (fd : Z) (k : kernel) : Z * kernel :=
  match sys_enter (SysDup fd) k with
  | (Some _, k1) => (-1, k1)
  | (None, k1) =>
      match fds k1 !! fd with
      | Some d =>
          let n := lowest_free (fds k1) in
          (n, set_fds (<[n := d]> (fds k1)) k1)
      | None => (-1, set_errno EBADF k1)
      end
  end.

(** [readlink(path, buf, bufsiz)]: the number of bytes placed in the buffer
    and those bytes (at most [bufsiz], no terminator), or -1 with errno
    set. *)
Definition readlink (path : string) (bufsiz : Z) (k : kernel)
  : Z * string * kernel :=
  match sys_enter (SysReadlink path bufsiz) k with
  | (Some _, k1) => (-1, EmptyString, k1)
  | (None, k1) =>
      match links k1 !! path with
      | Some target =>
          if bufsiz <=? 0 then (-1, EmptyString, set_errno EINVAL k1)
          else
            let out := substring 0 (Z.to_nat bufsiz) target in
            (Z.of_nat (String.length out), out, k1)
      | None => (-1, EmptyString, set_errno ENOENT k1)
      end
  end.

(** ** Handles *)

(** Modelled from the spec: [native_handle_type::disposition] is declared in
    native_handle_type.hpp, which is not among the sources.  The two bits
    used here are given distinct positions of the behaviour bitfield. *)
Definition append_only : Z := 4.
Definition aligned_io : Z := 64.

(** Modelled from the spec: [native_handle_type] (native_handle_type.hpp, not
    among the sources) is the behaviour bitfield plus the descriptor. *)
Record native_handle_type : Type := NativeHandle {
  behaviour : Z;
  fd : Z
}.

(** Modelled from the spec: the default-constructed [native_handle_type()]
    has no behaviour bit and the descriptor -1. *)
Definition native_handle_default : native_handle_type := NativeHandle 0 (-1).

(** Modelled from the spec: [handle::caching] (handle.hpp, not among the
    sources) has these eight modes. *)
Inductive caching : Type :=
| unchanged
| none
| only_metadata
| reads
| reads_and_metadata
| all
| safety_fsyncs
| temporary.

(** Modelled from the spec: the data members of [handle] (handle.hpp). *)
Record handle : Type := Handle {
  _caching : caching;
  _flags : Z;
  _v : native_handle_type
}.

Definition with_v (v : native_handle_type) (h : handle) : handle :=
  Handle (_caching h) (_flags h) v.
Definition with_behaviour (b : Z) (h : handle) : handle :=
  with_v (NativeHandle b (fd (_v h))) h.
Definition with_fd (n : Z) (h : handle) : handle :=
  with_v (NativeHandle (behaviour (_v h)) n) h.
Definition with_caching (c : caching) (h : handle) : handle :=
  Handle c (_flags h) (_v h).

(** Modelled from the spec: [handle::are_safety_fsyncs_issued()] (handle.hpp)
    is true iff the caching mode is [safety_fsyncs]. *)
Definition are_safety_fsyncs_issued (h : handle) : bool :=
  match _caching h with
  | safety_fsyncs => true
  | _ => false
  end.

(** ** [result<T>] and the monad of member functions *)

Inductive category : Type := system_category | generic_category.

Inductive result (T : Type) : Type :=
| success (v : T)
| failure (code : Z) (cat : category).
Arguments success {T} v.
Arguments failure {T} code cat.

Definition has_error {T} (r : result T) : bool :=
  match r with
  | success _ => false
  | failure _ _ => true
  end.

(** A member function runs on [*this] and the kernel; an error is an early
    return that keeps both as they are at that point. *)
Definition method (A : Type) : Type :=
  handle -> kernel -> result A * handle * kernel.

#[global] Instance method_ret : MRet method :=
  fun A a h k => (success a, h, k).

#[global] Instance method_bind : MBind method :=
  fun A B f m h k =>
    match m h k with
    | (success a, h1, k1) => f a h1 k1
    | (failure c cat, h1, k1) => (failure c cat, h1, k1)
    end.

Definition this : method handle := fun h k => (success h, h, k).

Definition assign (f : handle -> handle) : method unit :=
  fun h k => (success tt, f h, k).

Definition sys {A} (call : kernel -> A * kernel) : method A :=
  fun h k => let '(a, k1) := call k in (success a, h, k1).

(** [return {errno, std::system_category()};] *)
Definition return_errno {A} : method A :=
  fun h k => (failure (errno k) system_category, h, k).

(** [if(-1 == rc) return {errno, std::system_category()};] *)
Definition check (rc : Z) : method unit :=
  if rc =? -1 then return_errno else mret tt.

(** ** Strings of [current_path] *)

Definition path_type : Type := string.

Definition deleted_marker : string := " (deleted)".

Fixpoint nuls (n : nat) : string :=
  match n with
  | O => EmptyString
  | S m => String "000"%char (nuls m)
  end.

(** [s.resize(n)]: cut, or pad with NULs. *)
Definition resize (n : nat) (s : string) : string :=
  substring 0 n s +:+ nuls (n - String.length s).

(** What a buffer holds after [data] was written at its start. *)
Definition buffer_write (buf data : string) : string :=
  data +:+ substring (String.length data)
                     (String.length buf - String.length data) buf.

(** [a.compare(pos, len, b)]. *)
Definition string_compare (a : string) (pos len : nat) (b : string)
  : comparison :=
  String.compare (substring pos len a) b.

Definition is_zero (c : comparison) : bool :=
  match c with
  | Eq => true
  | _ => false
  end.

(** [ret.size() >= 10 && (!ret.compare(0, 10, " (deleted)") ||
    !ret.compare(ret.size() - 10, 10, " (deleted)"))]. *)
Definition names_deleted (ret : string) : bool :=
  (10 <=? String.length ret)%nat
  && (is_zero (string_compare ret 0 10 deleted_marker)
      || is_zero (string_compare ret (String.length ret - 10) 10
                                 deleted_marker)).

(** [snprintf(in, size, "/proc/self/fd/%d", n)]. *)
Definition snprintf_proc_self_fd (size : nat) (n : Z) : string :=
  substring 0 (size - 1) ("/proc/self/fd/" +:+ pretty n).

(** ** The member functions of handle.ipp *)

Section Members.

(** [native_handle_type::operator bool], declared in native_handle_type.hpp;
    the member functions only test it. *)
Variable valid : native_handle_type -> bool.

(** [result<handle::path_type> handle::current_path() const], the
    [__linux__] branch.  The [try]/[catch] around the body only turns a
    failed allocation into an error; allocations are taken to succeed. *)
Definition current_path : method path_type :=
  h ← this;
  let ret := resize (Z.to_nat 32769) EmptyString in
  let in_ := snprintf_proc_self_fd 64 (fd (_v h)) in
  r ← sys (readlink in_ 32768);
  let '(len, written) := r in
  check len;;
  let ret := buffer_write ret written in
  let ret := resize (Z.to_nat len) ret in
  if names_deleted ret then mret EmptyString else mret ret.

(** [result<void> handle::close()]. *)
Definition close : method unit :=
  h ← this;
  if valid (_v h) then
    (if are_safety_fsyncs_issued h then
       rc ← sys (fsync (fd (_v h)));
       check rc
     else mret tt);;
    rc ← sys (sys_close (fd (_v h)));
    check rc;;
    assign (with_v native_handle_default)
  else mret tt.

(** [handle::~handle()]: [AFIO_LOG_FATAL] only logs, [abort()] ends the
    process. *)
Inductive exit : Type :=
| Destroyed (k : kernel)
| Aborted (k : kernel).

Definition destroy (h : handle) (k : kernel) : exit :=
  if valid (_v h) then
    match close h k with
    | (ret, _, k1) => if has_error ret then Aborted k1 else Destroyed k1
    end
  else Destroyed k.

(** [result<handle> handle::clone() const].  The temporary that is dropped
    on the error path holds the descriptor -1. *)
Definition clone : method handle :=
  h ← this;
  let ret := Handle (_caching h) (_flags h) native_handle_default in
  let ret := with_behaviour (behaviour (_v h)) ret in
  n ← sys (dup (fd (_v h)));
  let ret := with_fd n ret in
  check (fd (_v ret));;
  mret ret.

(** [result<void> handle::set_append_only(bool enable)]. *)
Definition set_append_only (enable : bool) : method unit :=
  h ← this;
  attribs ← sys (fcntl_getfl (fd (_v h)));
  check attribs;;
  if enable then
    let attribs := Z.lor attribs O_APPEND in
    rc ← sys (fcntl_setfl (fd (_v h)) attribs);
    check rc;;
    assign (fun h => with_behaviour (Z.lor (behaviour (_v h)) append_only) h)
  else
    let attribs := Z.land attribs (Z.lnot O_APPEND) in
    rc ← sys (fcntl_setfl (fd (_v h)) attribs);
    check rc;;
    assign (fun h =>
              with_behaviour
                (Z.land (behaviour (_v h)) (Z.lnot append_only)) h).

(** [result<void> handle::set_kernel_caching(caching caching)], with
    [O_DSYNC] defined.  The switch is on the member [_caching]; the
    parameter is stored at the end. *)
Definition set_kernel_caching (caching_ : caching) : method unit :=
  h ← this;
  attribs ← sys (fcntl_getfl (fd (_v h)));
  check attribs;;
  let attribs :=
    Z.land attribs (Z.lnot (Z.lor (Z.lor O_SYNC O_DIRECT) O_DSYNC)) in
  match _caching h with
  | unchanged => mret tt
  | none =>
      let attribs := Z.lor attribs (Z.lor O_SYNC O_DIRECT) in
      rc ← sys (fcntl_setfl (fd (_v h)) attribs);
      check rc;;
      assign (fun h => with_behaviour (Z.lor (behaviour (_v h)) aligned_io) h)
  | only_metadata =>
      let attribs := Z.lor attribs O_DIRECT in
      rc ← sys (fcntl_setfl (fd (_v h)) attribs);
      check rc;;
      assign (fun h => with_behaviour (Z.lor (behaviour (_v h)) aligned_io) h)
  | reads =>
      let attribs := Z.lor attribs O_SYNC in
      rc ← sys (fcntl_setfl (fd (_v h)) attribs);
      check rc;;
      assign (fun h =>
                with_behaviour
                  (Z.land (behaviour (_v h)) (Z.lnot aligned_io)) h)
  | reads_and_metadata =>
      let attribs := Z.lor attribs O_DSYNC in
      rc ← sys (fcntl_setfl (fd (_v h)) attribs);
      check rc;;
      assign (fun h =>
                with_behaviour
                  (Z.land (behaviour (_v h)) (Z.lnot aligned_io)) h)
  | all | safety_fsyncs | temporary =>
      rc ← sys (fcntl_setfl (fd (_v h)) attribs);
      check rc;;
      assign (fun h =>
                with_behaviour
                  (Z.land (behaviour (_v h)) (Z.lnot aligned_io)) h)
  end;;
  assign (with_caching caching_).

End Members.

(** Modelled from the spec: [native_handle_type::operator bool]
    (native_handle_type.hpp, not among the sources); a native handle is
    empty when it holds no descriptor. *)
Definition posix_valid (v : native_handle_type) : bool :=
  negb (fd v =? -1).

(** The system calls issued between two kernel states. *)
Definition issued (k k1 : kernel) : list syscall :=
  drop (length (trace k)) (trace k1).

(** ** The table of the specification

    Section 4.2 of the specification gives, for each caching mode, the
    attributes to set once the synchronous-write and direct-I/O attributes
    are cleared, and what happens to the [aligned_io] bit.  These two
    definitions follow its words; the theorems compare them with
    [set_kernel_caching]. *)
Definition spec_attribs (mode : caching) (cleared : Z) : Z :=
  match mode with
  | none => Z.lor cleared (Z.lor O_SYNC O_DIRECT)
  | only_metadata => Z.lor cleared O_DIRECT
  | reads => Z.lor cleared O_SYNC
  | reads_and_metadata => Z.lor cleared O_DSYNC
  | all | safety_fsyncs | temporary => cleared
  | unchanged => cleared
  end.

Definition spec_behaviour (mode : caching) (b : Z) : Z :=
  match mode with
  | none | only_metadata => Z.lor b aligned_io
  | reads | reads_and_metadata | all | safety_fsyncs | temporary =>
      Z.land b (Z.lnot aligned_io)
  | unchanged => b
  end.

(** ** A small world for examples

    One process with descriptor 3 open on a description with the given
    status flags, whose procfs link names an unlinked file. *)
Definition example_kernel (flags : N) (script : list (option Z)) : kernel :=
  Kernel {[ 3 := 0%nat ]} {[ 0%nat := flags ]}
         {[ "/proc/self/fd/3"%string := "/tmp/a (deleted)"%string ]}
         0 script [].

Definition example_handle (mode : caching) (b : Z) : handle :=
  Handle mode 0 (NativeHandle b 3).

Definition empty_handle : handle :=
  Handle none 0 native_handle_default.

(** ** fs_handle.hpp

    [fs_handle] holds the device and inode numbers (both [uint64_t]).
    Objects live in a store indexed by address, so that the source of a
    move and its target may be the same object. *)
Record fs_handle : Type := FsHandle {
  _devid : Z;
  _inode : Z
}.

(** [constexpr fs_handle() {}] with [_devid{0}] and [_inode{0}]. *)
Definition fs_handle_default : fs_handle := FsHandle 0 0.

Definition st_dev (f : fs_handle) : Z := _devid f.
Definition st_ino (f : fs_handle) : Z := _inode f.

(** [unique_id()]: the two halves [as_longlongs[0]] and [as_longlongs[1]]
    of the 128 bit identifier. *)
Definition unique_id (f : fs_handle) : Z * Z := (_devid f, _inode f).

Definition store_devid (p : nat) (v : Z) (m : gmap nat fs_handle)
  : gmap nat fs_handle :=
  alter (fun f => FsHandle v (_inode f)) p m.
Definition store_inode (p : nat) (v : Z) (m : gmap nat fs_handle)
  : gmap nat fs_handle :=
  alter (fun f => FsHandle (_devid f) v) p m.

(** [fs_handle &operator=(fs_handle &&o)] on the objects at [this_] and
    [o], statement by statement; [None] when an address is not an object. *)
Definition fs_handle_move_assign (this_ o : nat) (m : gmap nat fs_handle)
  : option (gmap nat fs_handle) :=
  match m !! this_, m !! o with
  | Some _, Some src =>
      let m := store_devid this_ (_devid src) m in
      match m !! o with
      | Some src =>
          let m := store_inode this_ (_inode src) m in
          let m := store_devid o 0 m in
          let m := store_inode o 0 m in
          Some m
      | None => None
      end
  | _, _ => None
  end.

(** ** byte_socket_handle.hpp: [ip::address]

    The comparison operators look at the 32 bytes of [_storage] only. *)
Record address : Type := Address {
  _storage : list Byte.byte
}.

Definition sizeof_storage : nat := 32.

(** [memcmp(a, b, n)] of <string.h>: the bytes are compared as unsigned
    values, the result has the sign of the first difference. *)
Fixpoint memcmp (a b : list Byte.byte) (n : nat) : Z :=
  match n, a, b with
  | S n', x :: a', y :: b' =>
      if (Byte.to_N x =? Byte.to_N y)%N then memcmp a' b' n'
      else Z.of_N (Byte.to_N x) - Z.of_N (Byte.to_N y)
  | _, _, _ => 0
  end.

(** [bool operator==(const address &o) const]. *)
Definition address_eq (a o : address) : bool :=
  0 =? memcmp (_storage a) (_storage o) sizeof_storage.

(** [bool operator!=(const address &o) const]. *)
Definition address_ne (a o : address) : bool :=
  negb (0 =? memcmp (_storage a) (_storage o) sizeof_storage).

(** [bool operator<(const address &o) const]. *)
Definition address_lt (a o : address) : bool :=
  memcmp (_storage a) (_storage o) sizeof_storage <? 0.

(** ** byte_socket_handle.hpp: [listening_socket_handle] *)

(** [errc::operation_not_supported], a generic error. *)
Definition EOPNOTSUPP : Z := 95.

(** The [handle] base and the multiplexer pointer [_ctx] (0 is
    [nullptr]). *)
Record listening_socket_handle : Type := ListeningSocket {
  lsh_handle : handle;
  _ctx : Z
}.

Definition with_ctx (c : Z) (s : listening_socket_handle)
  : listening_socket_handle :=
  ListeningSocket (lsh_handle s) c.

(** [byte_io_multiplexer *multiplexer() const]. *)
Definition multiplexer (s : listening_socket_handle) : Z := _ctx s.

Section ListeningSocketMembers.

(** [handle::is_multiplexable()] and [handle::close()] of this generation of
    the library are not among the sources, nor are [operator bool] and the
    value of the [_child_close_executed] bit; [debug] is true when [NDEBUG]
    is not defined. *)
Variable is_multiplexable : handle -> bool.
Variable handle_close : method unit.
Variable valid : native_handle_type -> bool.
Variable debug : bool.
Variable _child_close_executed : Z.

(** [result<void> listening_socket_handle::set_multiplexer(c)]; the
    registration with the multiplexer is commented out in the source. *)
Definition set_multiplexer (c : Z) (s : listening_socket_handle)
  : result unit * listening_socket_handle :=
  if negb (is_multiplexable (lsh_handle s))
  then (failure EOPNOTSUPP generic_category, s)
  else if c =? _ctx s then (success tt, s)
  else
    let s := if negb (_ctx s =? 0) then with_ctx 0 s else s in
    (success tt, with_ctx c s).

(** [result<void> listening_socket_handle::close()], not on Windows, for an
    object whose [set_multiplexer] is the one above (it is virtual). *)
Definition listening_socket_close (s : listening_socket_handle) (k : kernel)
  : result unit * listening_socket_handle * kernel :=
  match (if negb (_ctx s =? 0) then set_multiplexer 0 s
         else (success tt, s)) with
  | (failure c cat, s1) => (failure c cat, s1, k)
  | (success _, s1) =>
      let h := lsh_handle s1 in
      let h :=
        if debug && valid (_v h)
        then with_behaviour (Z.lor (behaviour (_v h)) _child_close_executed) h
        else h in
      match handle_close h k with
      | (r, h1, k1) => (r, ListeningSocket h1 (_ctx s1), k1)
      end
  end.

End ListeningSocketMembers.

(** ** More example data

    A descriptor whose file is still linked, a kernel with no descriptor
    at all, two [fs_handle] objects at addresses 1 and 2, addresses that
    differ in their first byte, and a listening socket on the example
    handle. *)
Definition example_live_kernel : kernel :=
  Kernel {[ 3 := 0%nat ]} {[ 0%nat := 0%N ]}
         {[ "/proc/self/fd/3"%string := "/tmp/a"%string ]}
         0 [] [].

Definition empty_kernel : kernel := Kernel ∅ ∅ ∅ 0 [] [].

Definition example_objects : gmap nat fs_handle :=
  {[ 1%nat := FsHandle 2049 77; 2%nat := FsHandle 2050 99 ]}.

Definition example_address (b : Byte.byte) : address :=
  Address (b :: repeat Byte.x00 31).

Definition example_listener (c : Z) : listening_socket_handle :=
  ListeningSocket (example_handle all 0) c.

(** * Properties *)

Ltac unfold_method :=
  repeat (progress (unfold mbind, method_bind, mret, method_ret, this, assign,
                      sys, check, return_errno in *; cbn beta iota zeta)).

(** ** System calls *)

Lemma sys_enter_inv c k o k1 :
  sys_enter c k = (o, k1) ->
  fds k1 = fds k /\ ofl k1 = ofl k /\ links k1 = links k /\
  trace k1 = (trace k ++ [c])%list /\
  (forall e, o = Some e -> errno k1 = e).
Proof.
  unfold sys_enter. intros H.
  destruct (faults k) as [|[e|] fs]; inversion H; subst; cbn;
    repeat split; try reflexivity; intros e' He; congruence.
Qed.

Lemma issued_app k k1 l :
  trace k1 = (trace k ++ l)%list -> issued k k1 = l.
Proof.
  intros H. unfold issued. rewrite H. apply drop_app_length.
Qed.

Lemma fsync_trace n k rc k1 :
  fsync n k = (rc, k1) -> trace k1 = (trace k ++ [SysFsync n])%list.
Proof.
  unfold fsync. intros H.
  destruct (sys_enter (SysFsync n) k) as [o k'] eqn:E.
  apply sys_enter_inv in E as (_ & _ & _ & Ht & _).
  destruct o; [inversion H; subst; exact Ht|].
  destruct (fds k' !! n); inversion H; subst; exact Ht.
Qed.

Lemma sys_close_trace n k rc k1 :
  sys_close n k = (rc, k1) -> trace k1 = (trace k ++ [SysClose n])%list.
Proof.
  unfold sys_close. intros H.
  destruct (sys_enter (SysClose n) k) as [o k'] eqn:E.
  apply sys_enter_inv in E as (_ & _ & _ & Ht & _).
  destruct o; [inversion H; subst; exact Ht|].
  destruct (fds k' !! n); inversion H; subst; exact Ht.
Qed.

Lemma sys_close_released n k rc k1 :
  sys_close n k = (rc, k1) -> rc <> -1 -> fds k1 !! n = None.
Proof.
  unfold sys_close. intros H Hrc.
  destruct (sys_enter (SysClose n) k) as [o k'] eqn:E.
  destruct o; [inversion H; subst; contradiction|].
  destruct (fds k' !! n); inversion H; subst; [|contradiction]. cbn.
  apply lookup_delete_eq.
Qed.

(** ** [close] and the destructor *)

Section Lifecycle.

Variable valid : native_handle_type -> bool.

(** [close] on an empty handle does nothing. *)
Lemma close_empty h k :
  valid (_v h) = false -> close valid h k = (success tt, h, k).
Proof.
  intros H. unfold close. unfold_method. rewrite H. reflexivity.
Qed.

(** [close] on a non-empty handle, step by step. *)
Lemma close_nonempty h k :
  valid (_v h) = true ->
  close valid h k =
    let flushed :=
      if are_safety_fsyncs_issued h then fsync (fd (_v h)) k else (0, k) in
    if flushed.1 =? -1
    then (failure (errno flushed.2) system_category, h, flushed.2)
    else
      let released := sys_close (fd (_v h)) flushed.2 in
      if released.1 =? -1
      then (failure (errno released.2) system_category, h, released.2)
      else (success tt, with_v native_handle_default h, released.2).
Proof.
  intros H. unfold close. unfold_method. rewrite H.
  destruct (are_safety_fsyncs_issued h).
  - destruct (fsync (fd (_v h)) k) as [rs k1]; cbn [fst snd].
    destruct (rs =? -1); unfold_method; [reflexivity|].
    destruct (sys_close (fd (_v h)) k1) as [rc k2]; cbn [fst snd].
    destruct (rc =? -1); unfold_method; reflexivity.
  - cbn [fst snd]. change (0 =? -1) with false. cbn iota.
    destruct (sys_close (fd (_v h)) k) as [rc k2]; cbn [fst snd].
    destruct (rc =? -1); unfold_method; reflexivity.
Qed.

Lemma close_trace h k r h1 k1 :
  valid (_v h) = true ->
  close valid h k = (r, h1, k1) ->
  issued k k1 =
    if are_safety_fsyncs_issued h
    then if (fsync (fd (_v h)) k).1 =? -1
         then [SysFsync (fd (_v h))]
         else [SysFsync (fd (_v h)); SysClose (fd (_v h))]
    else [SysClose (fd (_v h))].
Proof.
  intros Hv H. rewrite (close_nonempty _ _ Hv) in H. cbn zeta in H.
  destruct (are_safety_fsyncs_issued h).
  - destruct (fsync (fd (_v h)) k) as [rs kf] eqn:Ef. cbn [fst snd] in *.
    apply fsync_trace in Ef.
    destruct (rs =? -1).
    + inversion H; subst. apply issued_app. exact Ef.
    + destruct (sys_close (fd (_v h)) kf) as [rc kc] eqn:Ec.
      apply sys_close_trace in Ec. cbn [fst snd] in H.
      apply issued_app.
      destruct (rc =? -1); inversion H; subst;
        rewrite Ec, Ef, <- app_assoc; reflexivity.
  - cbn [fst snd] in H. change (0 =? -1) with false in H. cbn iota in H.
    destruct (sys_close (fd (_v h)) k) as [rc kc] eqn:Ec.
    apply sys_close_trace in Ec. cbn [fst snd] in H.
    apply issued_app.
    destruct (rc =? -1); inversion H; subst; exact Ec.
Qed.

Lemma close_failure_flush h k r h1 k1 :
  valid (_v h) = true ->
  close valid h k = (r, h1, k1) ->
  are_safety_fsyncs_issued h = true ->
  (fsync (fd (_v h)) k).1 = -1 ->
  has_error r = true.
Proof.
  intros Hv H Ha Hs. rewrite (close_nonempty _ _ Hv) in H. cbn zeta in H.
  rewrite Ha, Hs in H. change (-1 =? -1) with true in H. cbn iota in H.
  inversion H; subst. reflexivity.
Qed.

(** C3: destroying a non-empty handle runs [close] on it; when that close
    returns an error the destructor aborts the process (the error is neither
    returned nor dropped), and otherwise the last system call was [::close]
    on the descriptor, which has left the descriptor table.  Destroying an
    empty handle issues no system call and never aborts. *)
Theorem destroy_closes_or_aborts h k :
  (valid (_v h) = true ->
     (exists k1,
        destroy valid h k = Aborted k1 /\
        close valid h k = (failure (errno k1) system_category, h, k1)) \/
     (exists k1,
        destroy valid h k = Destroyed k1 /\
        close valid h k = (success tt, with_v native_handle_default h, k1) /\
        last (trace k1) = Some (SysClose (fd (_v h))) /\
        fds k1 !! fd (_v h) = None)) /\
  (valid (_v h) = false ->
     destroy valid h k = Destroyed k /\ close valid h k = (success tt, h, k)).
Proof.
  split; intros Hv.
  - unfold destroy. rewrite Hv, (close_nonempty _ _ Hv). cbn zeta.
    destruct (if are_safety_fsyncs_issued h then _ else _) as [rs kf].
    cbn [fst snd].
    destruct (rs =? -1).
    + left. exists kf. split; reflexivity.
    + destruct (sys_close (fd (_v h)) kf) as [rc kc] eqn:Ec. cbn [fst snd].
      destruct (Z.eqb_spec rc (-1)) as [Hrc|Hrc].
      * left. exists kc. split; reflexivity.
      * right. exists kc. repeat split.
        -- apply sys_close_trace in Ec. rewrite Ec. apply last_snoc.
        -- apply (sys_close_released _ _ _ _ Ec Hrc).
  - split; [|apply close_empty; exact Hv].
    unfold destroy. rewrite Hv. reflexivity.
Qed.

Hypothesis valid_default : valid native_handle_default = false.

(** C4: whenever [close] returns success the handle is empty afterwards, and
    closing it again succeeds without touching the handle or the kernel. *)
Theorem close_success_empties h k h1 k1 :
  close valid h k = (success tt, h1, k1) ->
  valid (_v h1) = false /\ close valid h1 k1 = (success tt, h1, k1).
Proof.
  intros H.
  assert (Hv1 : valid (_v h1) = false).
  { destruct (valid (_v h)) eqn:Hv.
    - rewrite (close_nonempty _ _ Hv) in H. cbn zeta in H.
      destruct (if are_safety_fsyncs_issued h then _ else _) as [rs kf].
      cbn [fst snd] in H.
      destruct (rs =? -1); [discriminate|].
      destruct (sys_close (fd (_v h)) kf) as [rc kc]. cbn [fst snd] in H.
      destruct (rc =? -1); [discriminate|].
      inversion H; subst. exact valid_default.
    - rewrite (close_empty _ _ Hv) in H. inversion H; subst. exact Hv. }
  split; [exact Hv1|]. apply close_empty. exact Hv1.
Qed.

(** C5: on a non-empty handle [close] returns an error exactly when the
    flush (if one is due) or the release returns -1; the error is the errno
    of that call in the system category, and the handle is left as it was,
    still non-empty. *)
Theorem close_failure_keeps_handle h k r h1 k1 :
  valid (_v h) = true ->
  close valid h k = (r, h1, k1) ->
  let flushed :=
    if are_safety_fsyncs_issued h then fsync (fd (_v h)) k else (0, k) in
  let released := sys_close (fd (_v h)) flushed.2 in
  (has_error r = true <->
     flushed.1 = -1 \/ (flushed.1 <> -1 /\ released.1 = -1)) /\
  (has_error r = true ->
     r = failure (errno k1) system_category /\ h1 = h /\
     valid (_v h1) = true).
Proof.
  intros Hv H. rewrite (close_nonempty _ _ Hv) in H. cbn zeta in *.
  destruct (if are_safety_fsyncs_issued h then _ else _) as [rs kf].
  cbn [fst snd] in *.
  destruct (Z.eqb_spec rs (-1)) as [Hs|Hs].
  - inversion H; subst. cbn. intuition congruence.
  - destruct (sys_close (fd (_v h)) kf) as [rc kc]. cbn [fst snd] in *.
    destruct (Z.eqb_spec rc (-1)) as [Hc|Hc]; inversion H; subst; cbn.
    + intuition congruence.
    + intuition congruence.
Qed.

(** C6: closing a non-empty handle whose caching mode is [safety_fsyncs]
    issues [fsync] on the descriptor first and [::close] after it (the
    release is skipped only when the flush itself failed); in every other
    caching mode the only system call is [::close]. *)
Theorem close_flushes_iff_safety_fsyncs h k r h1 k1 :
  valid (_v h) = true ->
  close valid h k = (r, h1, k1) ->
  (are_safety_fsyncs_issued h = true <-> _caching h = safety_fsyncs) /\
  (_caching h = safety_fsyncs ->
     issued k k1 = [SysFsync (fd (_v h)); SysClose (fd (_v h))] \/
     (issued k k1 = [SysFsync (fd (_v h))] /\ has_error r = true)) /\
  (_caching h <> safety_fsyncs ->
     issued k k1 = [SysClose (fd (_v h))]).
Proof.
  intros Hv H. pose proof (close_trace _ _ _ _ _ Hv H) as Ht.
  assert (Hiff : are_safety_fsyncs_issued h = true <->
                 _caching h = safety_fsyncs).
  { unfold are_safety_fsyncs_issued.
    destruct (_caching h); split; intros; congruence. }
  split; [exact Hiff|]. split.
  - intros Hc. apply Hiff in Hc. rewrite Hc in Ht.
    destruct (Z.eqb_spec (fsync (fd (_v h)) k).1 (-1)) as [Hs|Hs].
    + right. split; [exact Ht|].
      apply (close_failure_flush h k r h1 k1 Hv H Hc Hs).
    + left. exact Ht.
  - intros Hc. destruct (are_safety_fsyncs_issued h) eqn:Ha.
    + exfalso. apply Hc, Hiff. reflexivity.
    + exact Ht.
Qed.

End Lifecycle.

(** ** Strings *)

Lemma app_String a s t : String a s +:+ t = String a (s +:+ t).
Proof. reflexivity. Qed.

Lemma app_empty_r s : s +:+ "" = s.
Proof.
  induction s as [|a s IH]; [reflexivity|].
  rewrite app_String, IH. reflexivity.
Qed.

Lemma length_app s t :
  String.length (s +:+ t) = (String.length s + String.length t)%nat.
Proof.
  induction s as [|a s IH]; [reflexivity|].
  rewrite app_String. cbn. rewrite IH. reflexivity.
Qed.

Lemma substring_0_ge s n :
  (String.length s <= n)%nat -> substring 0 n s = s.
Proof.
  revert n. induction s as [|a s IH]; intros [|n] Hn; cbn in *;
    try reflexivity; try lia.
  rewrite IH by lia. reflexivity.
Qed.

Lemma substring_0_app s t :
  substring 0 (String.length s) (s +:+ t) = s.
Proof.
  induction s as [|a s IH]; [destruct t; reflexivity|].
  rewrite app_String. cbn. rewrite IH. reflexivity.
Qed.

Lemma substring_skip_app s t n :
  substring (String.length s) n (s +:+ t) = substring 0 n t.
Proof.
  induction s as [|a s IH]; [reflexivity|].
  rewrite app_String. cbn. exact IH.
Qed.

Lemma substring_split s n :
  (n <= String.length s)%nat ->
  s = substring 0 n s +:+ substring n (String.length s - n) s.
Proof.
  revert n. induction s as [|a s IH]; intros [|n] Hn; cbn in *.
  - reflexivity.
  - lia.
  - rewrite substring_0_ge by lia. reflexivity.
  - rewrite app_String. f_equal. apply IH. lia.
Qed.

Lemma string_compare_refl s : String.compare s s = Eq.
Proof.
  induction s as [|a s IH]; [reflexivity|].
  cbn. unfold Ascii.compare. rewrite N.compare_refl. exact IH.
Qed.

Lemma is_zero_compare s t :
  is_zero (String.compare s t) = true <-> s = t.
Proof.
  split.
  - intros H. apply String.compare_eq_iff.
    destruct (String.compare s t); [reflexivity|discriminate|discriminate].
  - intros ->. rewrite string_compare_refl. reflexivity.
Qed.

(** After [readlink] wrote [d] into the buffer, cutting the string to the
    returned length leaves exactly [d]. *)
Lemma resize_buffer_write buf d :
  resize (String.length d) (buffer_write buf d) = d.
Proof.
  unfold resize, buffer_write.
  rewrite substring_0_app, length_app.
  replace (String.length d - _)%nat with 0%nat by lia.
  apply app_empty_r.
Qed.

(** The test of [current_path] holds exactly for the strings that start or
    end with the marker. *)
Lemma names_deleted_iff ret :
  names_deleted ret = true <->
  (exists s, ret = deleted_marker +:+ s) \/
  (exists s, ret = s +:+ deleted_marker).
Proof.
  unfold names_deleted, string_compare.
  rewrite andb_true_iff, orb_true_iff, !is_zero_compare, Nat.leb_le.
  split.
  - intros [Hlen [H|H]].
    + left. exists (substring 10 (String.length ret - 10) ret).
      rewrite <- H at 1. apply substring_split. exact Hlen.
    + right. exists (substring 0 (String.length ret - 10) ret).
      pose proof (substring_split ret (String.length ret - 10)) as Hs.
      replace (String.length ret - (String.length ret - 10))%nat
        with 10%nat in Hs by lia.
      rewrite H in Hs. apply Hs. lia.
  - intros [[s ->]|[s ->]].
    + split; [rewrite length_app; cbn; lia|].
      left. apply (substring_0_app deleted_marker s).
    + split; [rewrite length_app; cbn; lia|].
      right. rewrite length_app.
      replace (String.length s + String.length deleted_marker - 10)%nat
        with (String.length s) by (cbn; lia).
      rewrite substring_skip_app. reflexivity.
Qed.

(** ** The path given to [readlink] *)

Lemma pretty_N_go_length n x s :
  (x < 10 ^ N.of_nat n)%N ->
  (String.length (pretty_N_go x s) <= String.length s + n)%nat.
Proof.
  revert x s. induction n as [|n IH]; intros x s Hx.
  - assert (x = 0%N) as -> by (cbn in Hx; lia).
    rewrite pretty_N_go_0. lia.
  - destruct (N.eq_dec x 0%N) as [->|Hne].
    + rewrite pretty_N_go_0. lia.
    + rewrite pretty_N_go_step by lia.
      etransitivity.
      * apply IH. apply N.Div0.div_lt_upper_bound.
        rewrite Nat2N.inj_succ, N.pow_succ_r' in Hx. exact Hx.
      * cbn. lia.
Qed.

Lemma pretty_int_length (n : Z) :
  -2147483648 <= n < 2147483648 ->
  (String.length (pretty n) <= 11)%nat.
Proof.
  intros Hn. destruct n as [|p|p]; unfold pretty, pretty_Z.
  - cbn. lia.
  - unfold pretty, pretty_positive, pretty, pretty_N.
    destruct (decide (N.pos p = 0%N)); [cbn; lia|].
    pose proof (pretty_N_go_length 10 (N.pos p) "") as H.
    cbn [String.length] in H. etransitivity; [apply H|]; lia.
  - rewrite length_app.
    unfold pretty, pretty_positive, pretty, pretty_N.
    destruct (decide (N.pos p = 0%N)); [cbn; lia|].
    pose proof (pretty_N_go_length 10 (N.pos p) "") as H.
    cbn [String.length] in H |- *.
    assert (String.length (pretty_N_go (N.pos p) "") <= 10)%nat; [|lia].
    etransitivity; [apply H|]; lia.
Qed.

(** For a descriptor that is an [int], the 64 byte buffer holds the whole of
    "/proc/self/fd/<fd>". *)
Lemma snprintf_proc_self_fd_int (n : Z) :
  -2147483648 <= n < 2147483648 ->
  snprintf_proc_self_fd 64 n = "/proc/self/fd/" +:+ pretty n.
Proof.
  intros Hn. unfold snprintf_proc_self_fd.
  apply substring_0_ge. rewrite length_app.
  pose proof (pretty_int_length n Hn). cbn. lia.
Qed.

(** ** [current_path] *)

Lemma readlink_inv path n k len data k1 :
  readlink path n k = (len, data, k1) ->
  trace k1 = (trace k ++ [SysReadlink path n])%list /\
  (len <> -1 -> len = Z.of_nat (String.length data)).
Proof.
  unfold readlink. intros H.
  destruct (sys_enter (SysReadlink path n) k) as [o k'] eqn:E.
  apply sys_enter_inv in E as (_ & _ & _ & Ht & _).
  destruct o; [inversion H; subst; split; [exact Ht|congruence]|].
  destruct (links k' !! path) as [target|];
    [|inversion H; subst; split; [exact Ht|congruence]].
  destruct (n <=? 0); inversion H; subst;
    (split; [exact Ht|congruence]).
Qed.

(** What [current_path] does with a link that was read. *)
Lemma current_path_read h k len data k1 :
  readlink (snprintf_proc_self_fd 64 (fd (_v h))) 32768 k = (len, data, k1) ->
  len <> -1 ->
  current_path h k =
    (success (if names_deleted data then EmptyString else data), h, k1).
Proof.
  intros Hr Hlen. unfold current_path. unfold_method. rewrite Hr.
  unfold_method.
  destruct (Z.eqb_spec len (-1)) as [|_]; [contradiction|]. unfold_method.
  apply readlink_inv in Hr as [_ Hl]. rewrite (Hl Hlen), Nat2Z.id.
  rewrite resize_buffer_write.
  destruct (names_deleted data); reflexivity.
Qed.


(** C7: on Linux [current_path] reads the link "/proc/self/fd/<fd>" (one
    [readlink] with a 32768 byte limit and no other system call); whenever
    the bytes read start or end with " (deleted)" the result is the empty
    path, returned as a success. *)
Theorem current_path_deleted_is_empty h k len data k1 :
  -2147483648 <= fd (_v h) < 2147483648 ->
  readlink ("/proc/self/fd/" +:+ pretty (fd (_v h))) 32768 k
    = (len, data, k1) ->
  len <> -1 ->
  (exists s, data = deleted_marker +:+ s) \/
  (exists s, data = s +:+ deleted_marker) ->
  current_path h k = (success EmptyString, h, k1) /\
  issued k k1 =
    [SysReadlink ("/proc/self/fd/" +:+ pretty (fd (_v h))) 32768].
Proof.
  intros Hfd Hr Hlen Hm.
  rewrite <- (snprintf_proc_self_fd_int _ Hfd) in *.
  split.
  - rewrite (current_path_read _ _ _ _ _ Hr Hlen).
    apply names_deleted_iff in Hm. rewrite Hm. reflexivity.
  - apply issued_app. apply readlink_inv in Hr as [Ht _]. exact Ht.
Qed.

(** ** [dup] and [clone] *)

Lemma lowest_free_spec (m : gmap Z nat) :
  0 <= lowest_free m /\
  m !! lowest_free m = None /\
  forall i, 0 <= i < lowest_free m -> is_Some (m !! i).
Proof.
  unfold lowest_free.
  destruct (list_find _ _) as [[j x]|] eqn:E; cbn.
  - apply list_find_Some in E as (Hj & Hx & Hlow).
    apply lookup_seqZ in Hj as [-> Hj]. repeat split; [lia|exact Hx|].
    intros i Hi.
    destruct (m !! i) eqn:Hm; [eauto|]. exfalso.
    apply (Hlow (Z.to_nat i) i); [|lia|exact Hm].
    apply lookup_seqZ. lia.
  - apply list_find_None in E. rewrite Forall_forall in E.
    assert (Hsub : list_to_set (seqZ 0 (Z.of_nat (size m))) ⊆ dom m).
    { intros i Hi. apply elem_of_list_to_set in Hi.
      apply elem_of_dom. specialize (E i Hi).
      destruct (m !! i); [eauto|contradiction]. }
    apply set_subseteq_size_eq in Hsub.
    + repeat split; [lia| |].
      * apply not_elem_of_dom. rewrite <- Hsub.
        rewrite elem_of_list_to_set, elem_of_seqZ. lia.
      * intros i Hi. apply elem_of_dom. rewrite <- Hsub.
        rewrite elem_of_list_to_set, elem_of_seqZ. lia.
    + rewrite size_dom, size_list_to_set by apply NoDup_seqZ.
      rewrite length_seqZ. lia.
Qed.

Lemma dup_inv n k m k1 :
  dup n k = (m, k1) ->
  trace k1 = (trace k ++ [SysDup n])%list /\
  ofl k1 = ofl k /\
  (m = -1 -> fds k1 = fds k) /\
  (m <> -1 ->
     0 <= m /\ fds k !! m = None /\
     exists d, fds k !! n = Some d /\ fds k1 = <[m := d]> (fds k)).
Proof.
  unfold dup. intros H.
  destruct (sys_enter (SysDup n) k) as [o k'] eqn:E.
  apply sys_enter_inv in E as (Hf & Ho & _ & Ht & _).
  destruct o.
  { inversion H; subst. repeat split; try assumption; congruence. }
  destruct (fds k' !! n) as [d|] eqn:Hd.
  - inversion H; subst; cbn. rewrite Hf in *.
    destruct (lowest_free_spec (fds k)) as (H0 & Hnone & _).
    repeat split; try assumption; try lia. eauto.
  - inversion H; subst; cbn. repeat split; try assumption; congruence.
Qed.

(** C9: [clone] leaves the handle as it is and asks the kernel for one
    [dup] of its descriptor.  When [dup] answers -1 the result is that errno
    in the system category; otherwise it is a handle with the caching mode,
    the flags and the behaviour bits of the original, owning the new
    descriptor, which was free before and now names the open file
    description of the original's descriptor. *)
Theorem clone_duplicates h k r h1 k1 :
  clone h k = (r, h1, k1) ->
  h1 = h /\
  issued k k1 = [SysDup (fd (_v h))] /\
  ((dup (fd (_v h)) k).1 = -1 -> r = failure (errno k1) system_category) /\
  ((dup (fd (_v h)) k).1 <> -1 ->
     exists c,
       r = success c /\
       _caching c = _caching h /\ _flags c = _flags h /\
       behaviour (_v c) = behaviour (_v h) /\
       fd (_v c) = (dup (fd (_v h)) k).1 /\
       fds k !! fd (_v c) = None /\
       is_Some (fds k !! fd (_v h)) /\
       fds k1 !! fd (_v c) = fds k !! fd (_v h) /\
       fds k1 !! fd (_v h) = fds k !! fd (_v h)).
Proof.
  unfold clone. unfold_method.
  destruct (dup (fd (_v h)) k) as [n kd] eqn:Ed. unfold_method.
  cbn [with_fd with_behaviour with_v _v fd behaviour fst].
  apply dup_inv in Ed as (Ht & _ & _ & Hok).
  destruct (Z.eqb_spec n (-1)) as [Hn|Hn]; unfold_method;
    intros H; inversion H; subst; clear H.
  - repeat split; [apply issued_app; exact Ht|contradiction].
  - destruct (Hok Hn) as (_ & Hfree & d & Hd & Hfds).
    repeat split; [apply issued_app; exact Ht|contradiction|].
    intros _. eexists. split; [reflexivity|]. cbn.
    repeat split; try assumption; [eauto| |].
    + rewrite Hfds, lookup_insert_eq. symmetry. exact Hd.
    + rewrite Hfds, lookup_insert_ne; [reflexivity|]. congruence.
Qed.

(** ** [fcntl] *)

Lemma fcntl_getfl_inv n k a k1 :
  fcntl_getfl n k = (a, k1) ->
  trace k1 = (trace k ++ [SysGetfl n])%list /\
  fds k1 = fds k /\ ofl k1 = ofl k /\
  (a <> -1 -> exists fl, status_flags k n = Some fl /\ a = Z.of_N fl).
Proof.
  unfold fcntl_getfl. intros H.
  destruct (sys_enter (SysGetfl n) k) as [o k'] eqn:E.
  apply sys_enter_inv in E as (Hf & Ho & _ & Ht & _).
  destruct o.
  { inversion H; subst. repeat split; try assumption; congruence. }
  unfold status_flags in *. rewrite Hf, Ho in H.
  destruct (fds k !! n) as [d|]; [destruct (ofl k !! d) as [fl|] eqn:Hfl|];
    inversion H; subst; cbn; repeat split; try assumption; try congruence.
  intros _. eauto.
Qed.

Lemma fcntl_setfl_inv n arg k rc k1 :
  fcntl_setfl n arg k = (rc, k1) ->
  trace k1 = (trace k ++ [SysSetfl n arg])%list /\
  fds k1 = fds k /\
  (rc = -1 -> ofl k1 = ofl k) /\
  (rc <> -1 ->
     0 <= arg /\ status_flags k1 n = Some (Z.to_N arg) /\
     exists d, fds k !! n = Some d /\ ofl k1 = <[d := Z.to_N arg]> (ofl k)).
Proof.
  unfold fcntl_setfl. intros H.
  destruct (sys_enter (SysSetfl n arg) k) as [o k'] eqn:E.
  apply sys_enter_inv in E as (Hf & Ho & _ & Ht & _).
  destruct o.
  { inversion H; subst. repeat split; try assumption; congruence. }
  rewrite Hf in H.
  destruct (fds k !! n) as [d|] eqn:Hd.
  - destruct (Z.ltb_spec arg 0); inversion H; subst; cbn;
      repeat split; try assumption; try congruence.
    + unfold status_flags. cbn. rewrite Hf, Hd. apply lookup_insert_eq.
    + exists d. rewrite Ho. split; reflexivity.
  - inversion H; subst; cbn. repeat split; try assumption; congruence.
Qed.

(** ** Bit operations *)

Lemma land_lor_lnot a b : Z.land (Z.lor a b) (Z.lnot b) = Z.land a (Z.lnot b).
Proof.
  apply Z.bits_inj'. intros n Hn.
  rewrite !Z.land_spec, Z.lor_spec, Z.lnot_spec by exact Hn.
  destruct (Z.testbit a n), (Z.testbit b n); reflexivity.
Qed.

Lemma land_lnot_disjoint a b : Z.land a b = 0 -> Z.land a (Z.lnot b) = a.
Proof.
  intros H. apply Z.bits_inj'. intros n Hn.
  assert (Hb : Z.testbit (Z.land a b) n = false)
    by (rewrite H; apply Z.bits_0).
  rewrite Z.land_spec in Hb.
  rewrite Z.land_spec, Z.lnot_spec by exact Hn.
  destruct (Z.testbit a n), (Z.testbit b n); try reflexivity; discriminate.
Qed.

(** ** [set_append_only] and [set_kernel_caching], step by step *)

Lemma set_append_only_steps enable h k :
  set_append_only enable h k =
    let got := fcntl_getfl (fd (_v h)) k in
    if got.1 =? -1
    then (failure (errno got.2) system_category, h, got.2)
    else
      let attribs :=
        if enable then Z.lor got.1 O_APPEND
        else Z.land got.1 (Z.lnot O_APPEND) in
      let put := fcntl_setfl (fd (_v h)) attribs got.2 in
      if put.1 =? -1
      then (failure (errno put.2) system_category, h, put.2)
      else
        (success tt,
         with_behaviour
           (if enable then Z.lor (behaviour (_v h)) append_only
            else Z.land (behaviour (_v h)) (Z.lnot append_only)) h,
         put.2).
Proof.
  unfold set_append_only. unfold_method.
  destruct (fcntl_getfl (fd (_v h)) k) as [a kg]. unfold_method.
  cbn [fst snd].
  destruct (a =? -1); unfold_method; [reflexivity|].
  destruct enable; unfold_method;
    destruct (fcntl_setfl (fd (_v h)) _ kg) as [rc kp]; unfold_method;
    cbn [fst snd]; destruct (rc =? -1); unfold_method; reflexivity.
Qed.

(** The switch of [set_kernel_caching] follows the table of the
    specification, read at the stored mode [_caching h]. *)
Lemma set_kernel_caching_steps mode h k :
  set_kernel_caching mode h k =
    let got := fcntl_getfl (fd (_v h)) k in
    if got.1 =? -1
    then (failure (errno got.2) system_category, h, got.2)
    else
      let cleared :=
        Z.land got.1 (Z.lnot (Z.lor (Z.lor O_SYNC O_DIRECT) O_DSYNC)) in
      match _caching h with
      | unchanged => (success tt, with_caching mode h, got.2)
      | stored =>
          let put :=
            fcntl_setfl (fd (_v h)) (spec_attribs stored cleared) got.2 in
          if put.1 =? -1
          then (failure (errno put.2) system_category, h, put.2)
          else
            (success tt,
             with_caching mode
               (with_behaviour (spec_behaviour stored (behaviour (_v h))) h),
             put.2)
      end.
Proof.
  unfold set_kernel_caching. unfold_method.
  destruct (fcntl_getfl (fd (_v h)) k) as [a kg]. unfold_method.
  cbn [fst snd].
  destruct (a =? -1); unfold_method; [reflexivity|].
  destruct (_caching h); unfold_method; try reflexivity;
    cbn [spec_attribs spec_behaviour];
    destruct (fcntl_setfl (fd (_v h)) _ kg) as [rc kp]; unfold_method;
    cbn [fst snd]; destruct (rc =? -1); unfold_method; reflexivity.
Qed.

(** ** Errors of the two setters *)

Lemma set_append_only_error enable h k r h1 k1 :
  set_append_only enable h k = (r, h1, k1) ->
  has_error r = true ->
  h1 = h /\ r = failure (errno k1) system_category /\
  fds k1 = fds k /\ ofl k1 = ofl k.
Proof.
  rewrite set_append_only_steps. cbn zeta.
  destruct (fcntl_getfl (fd (_v h)) k) as [a kg] eqn:Eg. cbn [fst snd].
  apply fcntl_getfl_inv in Eg as (_ & Hf & Ho & _).
  destruct (a =? -1).
  { intros H _. inversion H; subst. repeat split; assumption. }
  destruct (fcntl_setfl (fd (_v h)) _ kg) as [rc kp] eqn:Ep. cbn [fst snd].
  apply fcntl_setfl_inv in Ep as (_ & Hf' & Ho' & _).
  destruct (Z.eqb_spec rc (-1)) as [Hrc|Hrc]; intros H Herr;
    inversion H; subst; [|discriminate].
  repeat split; [congruence|]. rewrite (Ho' eq_refl). exact Ho.
Qed.

Lemma set_kernel_caching_error mode h k r h1 k1 :
  set_kernel_caching mode h k = (r, h1, k1) ->
  has_error r = true ->
  h1 = h /\ r = failure (errno k1) system_category /\
  fds k1 = fds k /\ ofl k1 = ofl k.
Proof.
  rewrite set_kernel_caching_steps. cbn zeta.
  destruct (fcntl_getfl (fd (_v h)) k) as [a kg] eqn:Eg. cbn [fst snd].
  apply fcntl_getfl_inv in Eg as (_ & Hf & Ho & _).
  destruct (a =? -1).
  { intros H _. inversion H; subst. repeat split; assumption. }
  destruct (_caching h);
    try (intros H Herr; inversion H; subst; discriminate);
    (destruct (fcntl_setfl (fd (_v h)) _ kg) as [rc kp] eqn:Ep;
     cbn [fst snd];
     apply fcntl_setfl_inv in Ep as (_ & Hf' & Ho' & _);
     destruct (Z.eqb_spec rc (-1)) as [Hrc|Hrc]; intros H Herr;
     inversion H; subst; [|discriminate];
     repeat split; [congruence|]; rewrite (Ho' eq_refl); exact Ho).
Qed.

(** C10: when [set_append_only] or [set_kernel_caching] returns an error,
    the handle is exactly as before the call, behaviour bits and stored
    caching mode included; the error is the errno of the failed [fcntl], and
    the kernel's descriptor table and status flags are untouched too. *)
Theorem setters_error_leaves_handle h k r h1 k1 :
  (exists enable, set_append_only enable h k = (r, h1, k1)) \/
  (exists mode, set_kernel_caching mode h k = (r, h1, k1)) ->
  has_error r = true ->
  h1 = h /\
  behaviour (_v h1) = behaviour (_v h) /\ _caching h1 = _caching h /\
  r = failure (errno k1) system_category /\
  fds k1 = fds k /\ ofl k1 = ofl k.
Proof.
  intros [[enable H]|[mode H]] Herr.
  - destruct (set_append_only_error _ _ _ _ _ _ H Herr) as (-> & ? & ? & ?).
    repeat split; assumption.
  - destruct (set_kernel_caching_error _ _ _ _ _ _ H Herr) as (-> & ? & ? & ?).
    repeat split; assumption.
Qed.

(** ** [set_append_only] on, then off *)

Lemma set_append_only_success enable h k h1 k1 :
  set_append_only enable h k = (success tt, h1, k1) ->
  exists fl,
    status_flags k (fd (_v h)) = Some fl /\
    let attribs :=
      if enable then Z.lor (Z.of_N fl) O_APPEND
      else Z.land (Z.of_N fl) (Z.lnot O_APPEND) in
    0 <= attribs /\
    status_flags k1 (fd (_v h)) = Some (Z.to_N attribs) /\
    issued k k1 = [SysGetfl (fd (_v h)); SysSetfl (fd (_v h)) attribs] /\
    h1 = with_behaviour
           (if enable then Z.lor (behaviour (_v h)) append_only
            else Z.land (behaviour (_v h)) (Z.lnot append_only)) h.
Proof.
  rewrite set_append_only_steps. cbn zeta.
  destruct (fcntl_getfl (fd (_v h)) k) as [a kg] eqn:Eg. cbn [fst snd].
  apply fcntl_getfl_inv in Eg as (Ht & Hf & Ho & Hfl).
  destruct (Z.eqb_spec a (-1)) as [|Ha]; [discriminate|].
  destruct (Hfl Ha) as (fl & Hst & ->).
  destruct (fcntl_setfl (fd (_v h)) _ kg) as [rc kp] eqn:Ep. cbn [fst snd].
  apply fcntl_setfl_inv in Ep as (Ht' & _ & _ & Hok).
  destruct (Z.eqb_spec rc (-1)) as [|Hrc]; [discriminate|].
  intros H. inversion H; subst. exists fl.
  destruct (Hok Hrc) as (Hpos & Hst' & _).
  repeat split; try assumption.
  apply issued_app. rewrite Ht', Ht, <- app_assoc. reflexivity.
Qed.

(** C8 (as amended): when [set_append_only(true)] and then
    [set_append_only(false)] both succeed, the status flags of the
    descriptor are the original ones with [O_APPEND] cleared and the
    behaviour bits are the original ones with [append_only] cleared; every
    other bit and member is as before.  So the original state is restored
    exactly when [O_APPEND] and [append_only] were clear to begin with. *)
Theorem set_append_only_on_off h k h1 k1 h2 k2 :
  set_append_only true h k = (success tt, h1, k1) ->
  set_append_only false h1 k1 = (success tt, h2, k2) ->
  exists fl,
    status_flags k (fd (_v h)) = Some fl /\
    status_flags k2 (fd (_v h))
      = Some (Z.to_N (Z.land (Z.of_N fl) (Z.lnot O_APPEND))) /\
    h2 = with_behaviour (Z.land (behaviour (_v h)) (Z.lnot append_only)) h /\
    (Z.land (Z.of_N fl) O_APPEND = 0 ->
       status_flags k2 (fd (_v h)) = status_flags k (fd (_v h))) /\
    (Z.land (behaviour (_v h)) append_only = 0 -> h2 = h).
Proof.
  intros H1 H2.
  apply set_append_only_success in H1 as (fl & Hst & Hpos & Hst1 & _ & ->).
  apply set_append_only_success in H2 as (fl1 & Hst1' & _ & Hst2 & _ & ->).
  cbn [with_behaviour with_v _v fd behaviour _caching _flags] in *.
  rewrite Hst1 in Hst1'. inversion Hst1'; subst fl1. clear Hst1'.
  rewrite Z2N.id, land_lor_lnot in Hst2 by exact Hpos.
  exists fl. rewrite land_lor_lnot.
  assert (Hh : Handle (_caching h) (_flags h)
                 (NativeHandle (Z.land (behaviour (_v h)) (Z.lnot append_only))
                               (fd (_v h)))
               = with_behaviour
                   (Z.land (behaviour (_v h)) (Z.lnot append_only)) h)
    by reflexivity.
  repeat split; try assumption.
  - intros Hclear. rewrite Hst2, Hst, land_lnot_disjoint by exact Hclear.
    rewrite N2Z.id. reflexivity.
  - intros Hclear. rewrite land_lnot_disjoint by exact Hclear.
    destruct h as [c f [b n]]. reflexivity.
Qed.

(** C8, as stated, fails: on a descriptor opened with [O_APPEND] and a
    handle whose [append_only] bit is set, both calls succeed and leave
    both cleared. *)
Lemma set_append_only_on_off_not_restored :
  let h := example_handle all append_only in
  let k := example_kernel (Z.to_N O_APPEND) [] in
  exists h1 k1 h2 k2,
    set_append_only true h k = (success tt, h1, k1) /\
    set_append_only false h1 k1 = (success tt, h2, k2) /\
    status_flags k (fd (_v h)) = Some (Z.to_N O_APPEND) /\
    status_flags k2 (fd (_v h)) = Some 0%N /\
    behaviour (_v h) = append_only /\
    behaviour (_v h2) = 0 /\
    status_flags k2 (fd (_v h)) <> status_flags k (fd (_v h)) /\
    behaviour (_v h2) <> behaviour (_v h).
Proof.
  cbv zeta. do 4 eexists.
  split; [vm_compute; reflexivity|].
  split; [vm_compute; reflexivity|].
  repeat split; try (vm_compute; reflexivity); vm_compute; discriminate.
Qed.

(** ** [set_kernel_caching] against the table *)

(** A successful call sets what the table gives for the mode the handle had
    before the call; the argument only ends up in [_caching]. *)
Lemma set_kernel_caching_success mode h k h1 k1 :
  set_kernel_caching mode h k = (success tt, h1, k1) ->
  exists fl,
    status_flags k (fd (_v h)) = Some fl /\
    let cleared :=
      Z.land (Z.of_N fl) (Z.lnot (Z.lor (Z.lor O_SYNC O_DIRECT) O_DSYNC)) in
    match _caching h with
    | unchanged =>
        issued k k1 = [SysGetfl (fd (_v h))] /\
        ofl k1 = ofl k /\ h1 = with_caching mode h
    | stored =>
        issued k k1 =
          [SysGetfl (fd (_v h));
           SysSetfl (fd (_v h)) (spec_attribs stored cleared)] /\
        status_flags k1 (fd (_v h))
          = Some (Z.to_N (spec_attribs stored cleared)) /\
        h1 = with_caching mode
               (with_behaviour (spec_behaviour stored (behaviour (_v h))) h)
    end.
Proof.
  rewrite set_kernel_caching_steps. cbn zeta.
  destruct (fcntl_getfl (fd (_v h)) k) as [a kg] eqn:Eg. cbn [fst snd].
  apply fcntl_getfl_inv in Eg as (Ht & Hf & Ho & Hfl).
  destruct (Z.eqb_spec a (-1)) as [|Ha]; [discriminate|].
  destruct (Hfl Ha) as (fl & Hst & ->). intros H. exists fl.
  split; [exact Hst|]. cbn zeta.
  destruct (_caching h);
    try (inversion H; subst; repeat split; try assumption;
         apply issued_app; exact Ht);
    (destruct (fcntl_setfl (fd (_v h)) _ kg) as [rc kp] eqn:Ep;
     cbn [fst snd] in H;
     apply fcntl_setfl_inv in Ep as (Ht' & _ & _ & Hok);
     destruct (Z.eqb_spec rc (-1)) as [|Hrc]; [discriminate|];
     inversion H; subst;
     destruct (Hok Hrc) as (_ & Hst' & _);
     repeat split; try assumption;
     apply issued_app; rewrite Ht', Ht, <- app_assoc; reflexivity).
Qed.

(** The argument does not influence what is asked of the kernel. *)
Lemma set_kernel_caching_argument_unused m1 m2 h k :
  (set_kernel_caching m1 h k).2 = (set_kernel_caching m2 h k).2 /\
  (set_kernel_caching m1 h k).1.1 = (set_kernel_caching m2 h k).1.1 /\
  _v (set_kernel_caching m1 h k).1.2 = _v (set_kernel_caching m2 h k).1.2.
Proof.
  rewrite !set_kernel_caching_steps. cbn zeta.
  destruct (fcntl_getfl (fd (_v h)) k) as [a kg]. cbn [fst snd].
  destruct (a =? -1); [repeat split|].
  destruct (_caching h); try (repeat split; fail);
    (destruct (fcntl_setfl (fd (_v h)) _ kg) as [rc kp]; cbn [fst snd];
     destruct (rc =? -1); repeat split).
Qed.

(** C1, evaluated: a handle opened with caching [all] is asked for [none].
    The table wants [O_SYNC | O_DIRECT] set and the [aligned_io] bit set;
    the call succeeds, sets no attribute, leaves [aligned_io] clear and
    records [none] as the mode. *)
Theorem set_kernel_caching_none_on_all :
  let h := example_handle all 0 in
  let k := example_kernel 0 [] in
  exists k1,
    set_kernel_caching none h k = (success tt, example_handle none 0, k1) /\
    issued k k1 = [SysGetfl 3; SysSetfl 3 0] /\
    status_flags k1 3 = Some 0%N /\
    spec_attribs none 0 = Z.lor O_SYNC O_DIRECT /\
    spec_behaviour none 0 = aligned_io /\
    status_flags k1 3 <> Some (Z.to_N (spec_attribs none 0)) /\
    behaviour (_v (example_handle none 0)) <> spec_behaviour none 0.
Proof.
  cbv zeta. eexists.
  split; [vm_compute; reflexivity|].
  repeat split; try (vm_compute; reflexivity); vm_compute; discriminate.
Qed.

(** C2, evaluated: on the same handle, the first [set_kernel_caching(none)]
    leaves the attributes and [aligned_io] clear, and the second one sets
    [O_SYNC | O_DIRECT] and [aligned_io]: the two calls do not leave the
    handle in the same state. *)
Theorem set_kernel_caching_twice_differs :
  let h := example_handle all 0 in
  let k := example_kernel 0 [] in
  exists h1 k1 h2 k2,
    set_kernel_caching none h k = (success tt, h1, k1) /\
    set_kernel_caching none h1 k1 = (success tt, h2, k2) /\
    status_flags k1 3 = Some 0%N /\
    status_flags k2 3 = Some (Z.to_N (Z.lor O_SYNC O_DIRECT)) /\
    behaviour (_v h1) = 0 /\
    behaviour (_v h2) = aligned_io /\
    status_flags k2 3 <> status_flags k1 3 /\
    h2 <> h1.
Proof.
  cbv zeta. do 4 eexists.
  split; [vm_compute; reflexivity|].
  split; [vm_compute; reflexivity|].
  repeat split; try (vm_compute; reflexivity); vm_compute; discriminate.
Qed.

Lemma set_kernel_caching_fds mode h k :
  fds (set_kernel_caching mode h k).2 = fds k.
Proof.
  rewrite set_kernel_caching_steps. cbn zeta.
  destruct (fcntl_getfl (fd (_v h)) k) as [a kg] eqn:Eg. cbn [fst snd].
  apply fcntl_getfl_inv in Eg as (_ & Hf & _).
  destruct (a =? -1); [exact Hf|].
  destruct (_caching h); try exact Hf;
    (destruct (fcntl_setfl (fd (_v h)) _ kg) as [rc kp] eqn:Ep;
     cbn [fst snd];
     apply fcntl_setfl_inv in Ep as (_ & Hf' & _);
     destruct (rc =? -1); cbn [snd]; congruence).
Qed.


Lemma spec_attribs_cleared mode c :
  spec_attribs mode
    (Z.land (spec_attribs mode
               (Z.land c (Z.lnot (Z.lor (Z.lor O_SYNC O_DIRECT) O_DSYNC))))
            (Z.lnot (Z.lor (Z.lor O_SYNC O_DIRECT) O_DSYNC)))
  = spec_attribs mode
      (Z.land c (Z.lnot (Z.lor (Z.lor O_SYNC O_DIRECT) O_DSYNC))).
Proof.
  set (M := Z.lor (Z.lor O_SYNC O_DIRECT) O_DSYNC).
  assert (Hcc : Z.land (Z.land c (Z.lnot M)) (Z.lnot M) = Z.land c (Z.lnot M))
    by (rewrite <- Z.land_assoc, Z.land_diag; reflexivity).
  destruct mode; cbn [spec_attribs]; rewrite ?Hcc; try reflexivity;
    rewrite Z.land_lor_distr_l, Hcc;
    match goal with
    | |- Z.lor (Z.lor _ ?z) _ = _ => replace z with 0 by reflexivity
    end; rewrite Z.lor_0_r; reflexivity.
Qed.

Lemma spec_attribs_nonneg mode c : 0 <= c -> 0 <= spec_attribs mode c.
Proof.
  intros Hc. destruct mode; cbn [spec_attribs]; try exact Hc;
    apply Z.lor_nonneg; split; try exact Hc; vm_compute; discriminate.
Qed.

Lemma spec_behaviour_idem mode b :
  spec_behaviour mode (spec_behaviour mode b) = spec_behaviour mode b.
Proof.
  destruct mode; cbn [spec_behaviour]; try reflexivity;
    first [ rewrite <- Z.lor_assoc, Z.lor_diag; reflexivity
          | rewrite <- Z.land_assoc, Z.land_diag; reflexivity ].
Qed.

(** X20: once the stored mode is the argument, a further successful call with
    that argument changes neither the status flags nor the handle: the
    repeated call only disagrees with the first one through the mode that
    was stored before the first. *)
Lemma set_kernel_caching_stable_when_stored_agrees mode h k h1 k1 h2 k2 :
  _caching h = mode ->
  set_kernel_caching mode h k = (success tt, h1, k1) ->
  set_kernel_caching mode h1 k1 = (success tt, h2, k2) ->
  status_flags k2 (fd (_v h)) = status_flags k1 (fd (_v h)) /\ h2 = h1.
Proof.
  intros Hm H1 H2.
  pose proof (set_kernel_caching_fds mode h1 k1) as Hfds.
  rewrite H2 in Hfds. cbn [snd] in Hfds.
  apply set_kernel_caching_success in H1 as (fl & Hst & H1).
  apply set_kernel_caching_success in H2 as (fl1 & Hst1 & H2).
  cbn zeta in *. rewrite Hm in H1.
  assert (Hpos : 0 <= Z.land (Z.of_N fl)
                   (Z.lnot (Z.lor (Z.lor O_SYNC O_DIRECT) O_DSYNC))).
  { apply Z.land_nonneg. left. apply N2Z.is_nonneg. }
  destruct mode;
    [ destruct H1 as (_ & Ho & ->); cbn in H2;
      destruct H2 as (_ & Ho2 & ->);
      split; [unfold status_flags; rewrite Hfds, Ho2; reflexivity
             |reflexivity]
    | destruct H1 as (_ & Hst' & ->);
      cbn [with_caching with_behaviour with_v _v _caching _flags fd
           behaviour] in *;
      destruct H2 as (_ & Hst2 & ->);
      match type of Hst' with
      | _ = Some ?x => assert (fl1 = x) as -> by congruence
      end;
      rewrite Z2N.id in Hst2 by (apply spec_attribs_nonneg; exact Hpos);
      rewrite spec_attribs_cleared in Hst2;
      split; [rewrite Hst2, Hst'; reflexivity|];
      cbn [with_caching with_behaviour with_v _v _caching _flags fd
           behaviour];
      rewrite spec_behaviour_idem; reflexivity .. ].
Qed.

(** ** The temporary of [clone] *)

(** On the error path of [clone] the temporary handle, which holds the
    descriptor -1, is destroyed; that issues no system call. *)
Lemma clone_temporary_not_closed h k :
  destroy posix_valid
    (with_fd (-1)
       (with_behaviour (behaviour (_v h))
          (Handle (_caching h) (_flags h) native_handle_default))) k
  = Destroyed k.
Proof. reflexivity. Qed.

(** * The theorems at concrete inputs *)

(** A [safety_fsyncs] handle whose flush fails with errno 5 is destroyed:
    the process aborts.  An empty handle is destroyed: nothing happens. *)
Lemma destroy_closes_or_aborts_witness :
  let h := example_handle safety_fsyncs 0 in
  let k := example_kernel 0 [Some 5] in
  destroy posix_valid h k = Aborted (close posix_valid h k).2 /\
  destroy posix_valid empty_handle k = Destroyed k.
Proof.
  cbv zeta. split.
  - destruct (proj1 (destroy_closes_or_aborts posix_valid
                       (example_handle safety_fsyncs 0)
                       (example_kernel 0 [Some 5])) eq_refl)
      as [(k1 & Hd & Hc)|(k1 & _ & Hc & _)].
    + rewrite Hd, Hc. reflexivity.
    + vm_compute in Hc. discriminate.
  - apply (proj2 (destroy_closes_or_aborts posix_valid empty_handle
                    (example_kernel 0 [Some 5]))).
    reflexivity.
Defined.

Lemma close_success_empties_witness :
  let h := example_handle all 0 in
  let k := example_kernel 0 [] in
  let h1 := (close posix_valid h k).1.2 in
  let k1 := (close posix_valid h k).2 in
  posix_valid (_v h1) = false /\
  close posix_valid h1 k1 = (success tt, h1, k1).
Proof.
  cbv zeta.
  apply (close_success_empties posix_valid eq_refl
           (example_handle all 0) (example_kernel 0 [])).
  vm_compute. reflexivity.
Defined.

(** The release of descriptor 3 fails with errno 4. *)
Lemma close_failure_keeps_handle_witness :
  let h := example_handle all 0 in
  let k := example_kernel 0 [Some 4] in
  close posix_valid h k
    = (failure 4 system_category, h, (close posix_valid h k).2) /\
  posix_valid (_v h) = true.
Proof.
  cbv zeta.
  destruct (close_failure_keeps_handle posix_valid
              (example_handle all 0) (example_kernel 0 [Some 4])
              (failure 4 system_category) (example_handle all 0)
              (close posix_valid (example_handle all 0)
                     (example_kernel 0 [Some 4])).2)
    as [_ H].
  - reflexivity.
  - vm_compute. reflexivity.
  - destruct (H eq_refl) as (_ & _ & Hv). split; [|exact Hv].
    vm_compute. reflexivity.
Defined.

(** One handle in mode [safety_fsyncs] and one in mode [all] are closed. *)
Lemma close_flushes_iff_safety_fsyncs_witness :
  let k := example_kernel 0 [] in
  issued k (close posix_valid (example_handle safety_fsyncs 0) k).2
    = [SysFsync 3; SysClose 3] /\
  issued k (close posix_valid (example_handle all 0) k).2 = [SysClose 3].
Proof.
  cbv zeta. split.
  - destruct (close_flushes_iff_safety_fsyncs posix_valid
                (example_handle safety_fsyncs 0) (example_kernel 0 [])
                (success tt)
                (with_v native_handle_default
                   (example_handle safety_fsyncs 0))
                (close posix_valid (example_handle safety_fsyncs 0)
                       (example_kernel 0 [])).2)
      as (_ & H & _).
    + reflexivity.
    + vm_compute. reflexivity.
    + destruct (H eq_refl) as [Hi|[_ He]]; [exact Hi|discriminate].
  - destruct (close_flushes_iff_safety_fsyncs posix_valid
                (example_handle all 0) (example_kernel 0 [])
                (success tt)
                (with_v native_handle_default (example_handle all 0))
                (close posix_valid (example_handle all 0)
                       (example_kernel 0 [])).2)
      as (_ & _ & H).
    + reflexivity.
    + vm_compute. reflexivity.
    + apply H. discriminate.
Defined.

Lemma current_path_deleted_is_empty_witness :
  let h := example_handle all 0 in
  let k := example_kernel 0 [] in
  let k1 := (readlink "/proc/self/fd/3" 32768 k).2 in
  current_path h k = (success EmptyString, h, k1) /\
  issued k k1 = [SysReadlink "/proc/self/fd/3" 32768].
Proof.
  cbv zeta.
  apply (current_path_deleted_is_empty (example_handle all 0)
           (example_kernel 0 []) 16 "/tmp/a (deleted)").
  - cbn. lia.
  - vm_compute. reflexivity.
  - discriminate.
  - right. exists "/tmp/a"%string. reflexivity.
Defined.

Lemma clone_duplicates_witness :
  let h := example_handle reads 64 in
  let k := example_kernel 0 [] in
  exists c,
    (clone h k).1.1 = success c /\
    _caching c = reads /\ _flags c = 0 /\ behaviour (_v c) = 64 /\
    fd (_v c) = 0.
Proof.
  cbv zeta.
  destruct (clone_duplicates (example_handle reads 64) (example_kernel 0 [])
              (clone (example_handle reads 64) (example_kernel 0 [])).1.1
              (clone (example_handle reads 64) (example_kernel 0 [])).1.2
              (clone (example_handle reads 64) (example_kernel 0 [])).2)
    as (_ & _ & _ & H).
  - vm_compute. reflexivity.
  - destruct H as (c & Hr & Hc & Hf & Hb & Hfd & _).
    + vm_compute. discriminate.
    + exists c. repeat split; assumption.
Defined.

(** The attribute query succeeds and the attribute set fails with errno
    13. *)
Lemma setters_error_leaves_handle_witness :
  let h := example_handle none 64 in
  let k := example_kernel 0 [None; Some 13] in
  (set_kernel_caching all h k).1.2 = h /\
  (set_kernel_caching all h k).1.1
    = failure (errno (set_kernel_caching all h k).2) system_category.
Proof.
  cbv zeta.
  destruct (setters_error_leaves_handle (example_handle none 64)
              (example_kernel 0 [None; Some 13])
              (set_kernel_caching all (example_handle none 64)
                 (example_kernel 0 [None; Some 13])).1.1
              (set_kernel_caching all (example_handle none 64)
                 (example_kernel 0 [None; Some 13])).1.2
              (set_kernel_caching all (example_handle none 64)
                 (example_kernel 0 [None; Some 13])).2)
    as (Hh & _ & _ & Hr & _).
  - right. exists all. vm_compute. reflexivity.
  - vm_compute. reflexivity.
  - split; assumption.
Defined.

Lemma set_append_only_on_off_witness :
  let h := example_handle all 0 in
  let k := example_kernel 2 [] in
  let s1 := set_append_only true h k in
  let s2 := set_append_only false s1.1.2 s1.2 in
  status_flags s2.2 3 = status_flags k 3 /\ s2.1.2 = h.
Proof.
  cbv zeta.
  destruct (set_append_only_on_off (example_handle all 0) (example_kernel 2 [])
              (set_append_only true (example_handle all 0)
                 (example_kernel 2 [])).1.2
              (set_append_only true (example_handle all 0)
                 (example_kernel 2 [])).2
              (set_append_only false
                 (set_append_only true (example_handle all 0)
                    (example_kernel 2 [])).1.2
                 (set_append_only true (example_handle all 0)
                    (example_kernel 2 [])).2).1.2
              (set_append_only false
                 (set_append_only true (example_handle all 0)
                    (example_kernel 2 [])).1.2
                 (set_append_only true (example_handle all 0)
                    (example_kernel 2 [])).2).2)
    as (fl & Hfl & _ & _ & Hk & Hh).
  - vm_compute. reflexivity.
  - vm_compute. reflexivity.
  - assert (fl = 2%N) as -> by (vm_compute in Hfl; congruence).
    split; [apply Hk|apply Hh]; reflexivity.
Defined.

(** * Further properties of handle.ipp *)

(** ** Frames of the system calls *)

Lemma sys_enter_no_fault c k :
  hd None (faults k) = None -> (sys_enter c k).1 = None.
Proof.
  unfold sys_enter. destruct (faults k) as [|[e|] fs]; cbn; congruence.
Qed.

Lemma fsync_frame n k rc k1 :
  fsync n k = (rc, k1) ->
  fds k1 = fds k /\ ofl k1 = ofl k /\ links k1 = links k.
Proof.
  unfold fsync. intros H.
  destruct (sys_enter (SysFsync n) k) as [o k'] eqn:E.
  apply sys_enter_inv in E as (Hf & Ho & Hl & _).
  destruct o; [inversion H; subst; auto|].
  destruct (fds k' !! n); inversion H; subst; cbn; auto.
Qed.

Lemma sys_close_frame n k rc k1 :
  sys_close n k = (rc, k1) ->
  ofl k1 = ofl k /\ links k1 = links k /\
  (rc = -1 -> fds k1 = fds k) /\
  (rc <> -1 -> is_Some (fds k !! n) /\ fds k1 = delete n (fds k)).
Proof.
  unfold sys_close. intros H.
  destruct (sys_enter (SysClose n) k) as [o k'] eqn:E.
  apply sys_enter_inv in E as (Hf & Ho & Hl & _).
  destruct o; [inversion H; subst; repeat split; auto; contradiction|].
  rewrite Hf in H.
  destruct (fds k !! n) eqn:Hd; inversion H; subst; cbn;
    repeat split; auto; try discriminate; try contradiction; eauto;
    try (rewrite Hf; reflexivity).
Qed.

Lemma sys_close_stale n k :
  fds k !! n = None -> (sys_close n k).1 = -1 /\ fds (sys_close n k).2 = fds k.
Proof.
  intros Hn. unfold sys_close.
  destruct (sys_enter (SysClose n) k) as [o k'] eqn:E.
  apply sys_enter_inv in E as (Hf & _).
  destruct o; [split; [reflexivity|exact Hf]|].
  rewrite Hf, Hn. cbn. split; [reflexivity|exact Hf].
Qed.

Lemma fsync_stale n k :
  fds k !! n = None -> (fsync n k).1 = -1 /\ fds (fsync n k).2 = fds k.
Proof.
  intros Hn. unfold fsync.
  destruct (sys_enter (SysFsync n) k) as [o k'] eqn:E.
  apply sys_enter_inv in E as (Hf & _).
  destruct o; [split; [reflexivity|exact Hf]|].
  rewrite Hf, Hn. cbn. split; [reflexivity|exact Hf].
Qed.


Lemma readlink_found path n k target :
  links k !! path = Some target ->
  hd None (faults k) = None ->
  0 < n ->
  (readlink path n k).1
  = (Z.of_nat (String.length (substring 0 (Z.to_nat n) target)),
     substring 0 (Z.to_nat n) target).
Proof.
  intros Hl Hf Hn. unfold readlink.
  pose proof (sys_enter_no_fault (SysReadlink path n) k Hf) as Hno.
  destruct (sys_enter (SysReadlink path n) k) as [o k'] eqn:E.
  apply sys_enter_inv in E as (_ & _ & Hl' & _).
  cbn in Hno. subst o. rewrite Hl', Hl.
  destruct (Z.leb_spec n 0); [lia|]. reflexivity.
Qed.

Lemma length_substring_0_le n s :
  (String.length (substring 0 n s) <= n)%nat.
Proof.
  revert n. induction s as [|a s IH]; intros [|n]; cbn; try lia.
  specialize (IH n). lia.
Qed.

(** ** [current_path] *)

(** X1: when the procfs link of the descriptor exists and [readlink] is not
    made to fail, [current_path] succeeds with the first 32768 bytes of the
    link text, which is the whole text when it is not longer than that;
    only a text that starts or ends with the marker (after the cut) is
    replaced by the empty path. *)
Theorem current_path_returns_link_text h k target :
  -2147483648 <= fd (_v h) < 2147483648 ->
  links k !! ("/proc/self/fd/" +:+ pretty (fd (_v h))) = Some target ->
  hd None (faults k) = None ->
  let text := substring 0 (Z.to_nat 32768) target in
  (current_path h k).1
    = (success (if names_deleted text then EmptyString else text), h) /\
  Z.of_nat (String.length text) <= 32768 /\
  (Z.of_nat (String.length target) <= 32768 -> text = target).
Proof.
  intros Hfd Hl Hf text.
  rewrite <- (snprintf_proc_self_fd_int _ Hfd) in Hl.
  pose proof (readlink_found _ 32768 k target Hl Hf eq_refl) as Hr.
  destruct (readlink (snprintf_proc_self_fd 64 (fd (_v h))) 32768 k)
    as [[len data] k1] eqn:E.
  cbn [fst] in Hr. inversion Hr; subst len data. clear Hr.
  split; [|split].
  - rewrite (current_path_read h k _ _ k1 E) by lia. reflexivity.
  - pose proof (length_substring_0_le (Z.to_nat 32768) target). subst text.
    lia.
  - intros Hlen. apply substring_0_ge. lia.
Qed.


(** X3: the 64 byte buffer [in] is large enough for every [int]
    descriptor: "/proc/self/fd/" followed by the decimal digits is at most
    25 bytes long, so [snprintf] never cuts the path. *)
Theorem proc_self_fd_path_fits (n : Z) :
  -2147483648 <= n < 2147483648 ->
  (String.length ("/proc/self/fd/" +:+ pretty n) <= 25)%nat /\
  snprintf_proc_self_fd 64 n = "/proc/self/fd/" +:+ pretty n.
Proof.
  intros Hn. pose proof (pretty_int_length n Hn) as Hlen.
  assert (Hp : (String.length ("/proc/self/fd/" +:+ pretty n) <= 25)%nat)
    by (rewrite length_app; cbn; lia).
  split; [exact Hp|].
  unfold snprintf_proc_self_fd. apply substring_0_ge. cbn. lia.
Qed.

(** ** [close], the destructor and [clone] *)

Lemma clone_steps h k :
  clone h k =
    let dupd := dup (fd (_v h)) k in
    if dupd.1 =? -1
    then (failure (errno dupd.2) system_category, h, dupd.2)
    else
      (success
         (Handle (_caching h) (_flags h)
                 (NativeHandle (behaviour (_v h)) dupd.1)),
       h, dupd.2).
Proof.
  unfold clone. unfold_method.
  destruct (dup (fd (_v h)) k) as [n kd]. unfold_method.
  cbn [with_fd with_behaviour with_v _v fd behaviour fst snd _caching
       _flags].
  destruct (n =? -1); unfold_method; reflexivity.
Qed.

Section MoreLifecycle.

Variable valid : native_handle_type -> bool.

Lemma close_success_frame h k h1 k1 :
  valid (_v h) = true ->
  close valid h k = (success tt, h1, k1) ->
  is_Some (fds k !! fd (_v h)) /\
  fds k1 = delete (fd (_v h)) (fds k) /\
  ofl k1 = ofl k /\ links k1 = links k.
Proof.
  intros Hv H. rewrite (close_nonempty _ _ _ Hv) in H. cbn zeta in H.
  assert (Hfl : exists rs kf,
             (if are_safety_fsyncs_issued h then fsync (fd (_v h)) k
              else (0, k)) = (rs, kf) /\
             fds kf = fds k /\ ofl kf = ofl k /\ links kf = links k).
  { destruct (are_safety_fsyncs_issued h).
    - destruct (fsync (fd (_v h)) k) as [rs kf] eqn:Ef.
      exists rs, kf. split; [reflexivity|]. exact (fsync_frame _ _ _ _ Ef).
    - exists 0, k. repeat split. }
  destruct Hfl as (rs & kf & Efl & Hf & Ho & Hl). rewrite Efl in H.
  cbn [fst snd] in H.
  destruct (rs =? -1); [discriminate|].
  destruct (sys_close (fd (_v h)) kf) as [rc kc] eqn:Ec. cbn [fst snd] in H.
  apply sys_close_frame in Ec as (Ho' & Hl' & _ & Hok).
  destruct (Z.eqb_spec rc (-1)) as [|Hrc]; [discriminate|].
  inversion H; subst. destruct (Hok Hrc) as (Hopen & Hdel).
  rewrite Hf in Hopen, Hdel.
  repeat split; try assumption; congruence.
Qed.


(** X5: destroying a non-empty handle whose descriptor is not open in the
    kernel (it was closed behind the handle's back) always aborts the
    process, and the descriptor table is left as it was. *)
Theorem destroy_stale_descriptor_aborts h k :
  valid (_v h) = true ->
  fds k !! fd (_v h) = None ->
  exists k1, destroy valid h k = Aborted k1 /\ fds k1 = fds k.
Proof.
  intros Hv Hn. unfold destroy. rewrite Hv, (close_nonempty _ _ _ Hv).
  cbn zeta.
  destruct (are_safety_fsyncs_issued h).
  - destruct (fsync_stale _ _ Hn) as [Hrc Hf].
    destruct (fsync (fd (_v h)) k) as [rs kf]. cbn [fst snd] in *.
    subst rs. cbn. exists kf. split; [reflexivity|exact Hf].
  - cbn [fst snd]. change (0 =? -1) with false. cbn iota.
    destruct (sys_close_stale _ _ Hn) as [Hrc Hf].
    destruct (sys_close (fd (_v h)) k) as [rc kc]. cbn [fst snd] in *.
    subst rc. cbn. exists kc. split; [reflexivity|exact Hf].
Qed.

(** X6: after a successful [clone], closing the original successfully
    leaves the clone usable: its descriptor is still open, on the open
    file description the original had, with the same status flags, while
    the original's descriptor is gone. *)
Theorem clone_survives_close_of_original h k c h0 k1 h2 k2 :
  valid (_v h) = true ->
  clone h k = (success c, h0, k1) ->
  close valid h0 k1 = (success tt, h2, k2) ->
  fd (_v c) <> fd (_v h) /\
  is_Some (fds k2 !! fd (_v c)) /\
  fds k2 !! fd (_v c) = fds k !! fd (_v h) /\
  status_flags k2 (fd (_v c)) = status_flags k (fd (_v h)) /\
  fds k2 !! fd (_v h) = None.
Proof.
  intros Hv Hc Hcl. rewrite clone_steps in Hc. cbn zeta in Hc.
  destruct (dup (fd (_v h)) k) as [n kd] eqn:Ed. cbn [fst snd] in Hc.
  apply dup_inv in Ed as (_ & Ho & _ & Hok).
  destruct (Z.eqb_spec n (-1)) as [|Hn]; [discriminate|].
  inversion Hc; subst c h0 k1. clear Hc. cbn [_v fd].
  destruct (Hok Hn) as (_ & Hfree & d & Hd & Hfds).
  assert (Hne : n <> fd (_v h)) by congruence.
  destruct (close_success_frame h kd h2 k2 Hv Hcl)
    as (_ & Hdel & Hofl & _).
  assert (Hlook : fds k2 !! n = Some d).
  { rewrite Hdel, lookup_delete_ne, Hfds by congruence.
    apply lookup_insert_eq. }
  repeat split.
  - exact Hne.
  - rewrite Hlook. eauto.
  - rewrite Hlook, Hd. reflexivity.
  - unfold status_flags. rewrite Hlook, Hd, Hofl, Ho. reflexivity.
  - rewrite Hdel. apply lookup_delete_eq.
Qed.

End MoreLifecycle.

(** X7: [clone] creates exactly one descriptor when it succeeds (a
    descriptor that was free, on the original's open file description) and
    none when it fails; status flags are never touched and every other
    descriptor stays. *)
Theorem clone_adds_one_descriptor_or_none h k r h1 k1 :
  clone h k = (r, h1, k1) ->
  ofl k1 = ofl k /\
  (has_error r = true -> fds k1 = fds k) /\
  (forall c, r = success c ->
     fds k !! fd (_v c) = None /\
     exists d, fds k !! fd (_v h) = Some d /\
               fds k1 = <[fd (_v c) := d]> (fds k)).
Proof.
  rewrite clone_steps. cbn zeta.
  destruct (dup (fd (_v h)) k) as [n kd] eqn:Ed. cbn [fst snd].
  apply dup_inv in Ed as (_ & Ho & Hfail & Hok).
  destruct (Z.eqb_spec n (-1)) as [Hn|Hn]; intros H; inversion H; subst.
  - split; [exact Ho|]. split.
    + intros _. apply Hfail. reflexivity.
    + intros c Hc. discriminate.
  - destruct (Hok Hn) as (_ & Hfree & d & Hd & Hfds).
    split; [exact Ho|]. split; [discriminate|].
    intros c Hc. inversion Hc; subst. cbn. split; [exact Hfree|eauto].
Qed.

(** ** What the two setters leave alone *)

Ltac bitwise :=
  apply Z.bits_inj'; intros ?n ?Hn;
  rewrite ?Z.land_spec, ?Z.lor_spec, ?Z.lnot_spec, ?Z.bits_0 by assumption;
  repeat match goal with
         | |- context [Z.testbit ?a ?n] =>
             is_var a; destruct (Z.testbit a n)
         end;
  reflexivity.

Lemma land_lnot_idem a b :
  Z.land (Z.land a (Z.lnot b)) (Z.lnot b) = Z.land a (Z.lnot b).
Proof. bitwise. Qed.

Lemma land_lor_same a b : Z.land (Z.lor a b) b = b.
Proof. bitwise. Qed.

Lemma land_lnot_same a b : Z.land (Z.land a (Z.lnot b)) b = 0.
Proof. bitwise. Qed.

Lemma lor_lor_same a b : Z.lor (Z.lor a b) b = Z.lor a b.
Proof. bitwise. Qed.

Lemma set_append_only_fds enable h k :
  fds (set_append_only enable h k).2 = fds k.
Proof.
  rewrite set_append_only_steps. cbn zeta.
  destruct (fcntl_getfl (fd (_v h)) k) as [a kg] eqn:Eg. cbn [fst snd].
  apply fcntl_getfl_inv in Eg as (_ & Hf & _).
  destruct (a =? -1); [exact Hf|].
  destruct (fcntl_setfl (fd (_v h)) _ kg) as [rc kp] eqn:Ep. cbn [fst snd].
  apply fcntl_setfl_inv in Ep as (_ & Hf' & _).
  destruct (rc =? -1); cbn [snd]; congruence.
Qed.

(** X8: a successful [set_append_only(enable)] changes one status flag and
    one behaviour bit only: [O_APPEND] and [append_only] become [enable],
    every other status flag and behaviour bit, the caching mode, the flags,
    the descriptor and the descriptor table are as before. *)
Theorem set_append_only_touches_only_append enable h k h1 k1 :
  set_append_only enable h k = (success tt, h1, k1) ->
  exists fl fl1,
    status_flags k (fd (_v h)) = Some fl /\
    status_flags k1 (fd (_v h)) = Some fl1 /\
    Z.land (Z.of_N fl1) (Z.lnot O_APPEND)
      = Z.land (Z.of_N fl) (Z.lnot O_APPEND) /\
    Z.land (Z.of_N fl1) O_APPEND = (if enable then O_APPEND else 0) /\
    Z.land (behaviour (_v h1)) (Z.lnot append_only)
      = Z.land (behaviour (_v h)) (Z.lnot append_only) /\
    Z.land (behaviour (_v h1)) append_only
      = (if enable then append_only else 0) /\
    _caching h1 = _caching h /\ _flags h1 = _flags h /\
    fd (_v h1) = fd (_v h) /\
    fds k1 = fds k.
Proof.
  intros H. pose proof (set_append_only_fds enable h k) as Hfds.
  rewrite H in Hfds. cbn [snd] in Hfds.
  apply set_append_only_success in H as (fl & Hst & Hpos & Hst1 & _ & ->).
  eexists fl, _. split; [exact Hst|]. split; [exact Hst1|].
  rewrite Z2N.id by exact Hpos.
  cbn [with_behaviour with_v _v behaviour fd _caching _flags].
  destruct enable.
  - rewrite land_lor_lnot, !land_lor_same. repeat split; try assumption.
    apply land_lor_lnot.
  - rewrite !land_lnot_idem, !land_lnot_same. repeat split; assumption.
Qed.

(** X9: [set_append_only] is idempotent: a second successful call with
    the same argument leaves the status flags of the descriptor and the
    whole handle as the first call left them. *)
Theorem set_append_only_idempotent enable h k h1 k1 h2 k2 :
  set_append_only enable h k = (success tt, h1, k1) ->
  set_append_only enable h1 k1 = (success tt, h2, k2) ->
  status_flags k2 (fd (_v h)) = status_flags k1 (fd (_v h)) /\ h2 = h1.
Proof.
  intros H1 H2.
  apply set_append_only_success in H1 as (fl & Hst & Hpos & Hst1 & _ & ->).
  apply set_append_only_success in H2 as (fl1 & Hst1' & _ & Hst2 & _ & ->).
  cbn [with_behaviour with_v _v behaviour fd _caching _flags] in *.
  match type of Hst1 with
  | _ = Some ?x => assert (fl1 = x) as -> by congruence
  end.
  rewrite Z2N.id in Hst2 by exact Hpos.
  destruct enable.
  - rewrite lor_lor_same in Hst2. rewrite lor_lor_same.
    split; [congruence|reflexivity].
  - rewrite land_lnot_idem in Hst2. rewrite land_lnot_idem.
    split; [congruence|reflexivity].
Qed.

Lemma spec_attribs_outside mode c :
  Z.land (spec_attribs mode
            (Z.land c (Z.lnot (Z.lor (Z.lor O_SYNC O_DIRECT) O_DSYNC))))
         (Z.lnot (Z.lor (Z.lor O_SYNC O_DIRECT) O_DSYNC))
  = Z.land c (Z.lnot (Z.lor (Z.lor O_SYNC O_DIRECT) O_DSYNC)).
Proof.
  set (M := Z.lor (Z.lor O_SYNC O_DIRECT) O_DSYNC).
  destruct mode; cbn [spec_attribs]; try apply land_lnot_idem;
    rewrite Z.land_lor_distr_l, land_lnot_idem;
    match goal with
    | |- Z.lor _ ?z = _ => replace z with 0 by reflexivity
    end; apply Z.lor_0_r.
Qed.

Lemma spec_behaviour_outside mode b :
  Z.land (spec_behaviour mode b) (Z.lnot aligned_io)
  = Z.land b (Z.lnot aligned_io).
Proof.
  destruct mode; cbn [spec_behaviour];
    first [ reflexivity | apply land_lor_lnot | apply land_lnot_idem ].
Qed.

(** X10: a successful [set_kernel_caching] changes no status flag other
    than [O_SYNC], [O_DSYNC] and [O_DIRECT] (in particular [O_APPEND] is
    kept) and no behaviour bit other than [aligned_io]; the argument ends
    up in [_caching]; flags, descriptor and descriptor table are as
    before. *)
Theorem set_kernel_caching_touches_only_sync_direct mode h k h1 k1 :
  set_kernel_caching mode h k = (success tt, h1, k1) ->
  exists fl fl1,
    status_flags k (fd (_v h)) = Some fl /\
    status_flags k1 (fd (_v h)) = Some fl1 /\
    Z.land (Z.of_N fl1) (Z.lnot (Z.lor (Z.lor O_SYNC O_DIRECT) O_DSYNC))
      = Z.land (Z.of_N fl) (Z.lnot (Z.lor (Z.lor O_SYNC O_DIRECT) O_DSYNC)) /\
    Z.land (Z.of_N fl1) O_APPEND = Z.land (Z.of_N fl) O_APPEND /\
    Z.land (behaviour (_v h1)) (Z.lnot aligned_io)
      = Z.land (behaviour (_v h)) (Z.lnot aligned_io) /\
    _caching h1 = mode /\ _flags h1 = _flags h /\
    fd (_v h1) = fd (_v h) /\
    fds k1 = fds k.
Proof.
  intros H. pose proof (set_kernel_caching_fds mode h k) as Hfds.
  rewrite H in Hfds. cbn [snd] in Hfds.
  apply set_kernel_caching_success in H as (fl & Hst & H). cbn zeta in H.
  set (M := Z.lor (Z.lor O_SYNC O_DIRECT) O_DSYNC) in *.
  assert (Hpos : 0 <= Z.land (Z.of_N fl) (Z.lnot M)).
  { apply Z.land_nonneg. left. apply N2Z.is_nonneg. }
  assert (Happ : forall x y,
             Z.land x (Z.lnot M) = Z.land y (Z.lnot M) ->
             Z.land x O_APPEND = Z.land y O_APPEND).
  { intros x y Hxy.
    replace O_APPEND with (Z.land (Z.lnot M) O_APPEND) by reflexivity.
    rewrite !Z.land_assoc, Hxy. reflexivity. }
  assert (Hgen : exists fl1,
             status_flags k1 (fd (_v h)) = Some fl1 /\
             Z.land (Z.of_N fl1) (Z.lnot M) = Z.land (Z.of_N fl) (Z.lnot M) /\
             Z.land (behaviour (_v h1)) (Z.lnot aligned_io)
               = Z.land (behaviour (_v h)) (Z.lnot aligned_io) /\
             _caching h1 = mode /\ _flags h1 = _flags h /\
             fd (_v h1) = fd (_v h)).
  { destruct (_caching h) eqn:Hc;
      [ destruct H as (_ & Ho & ->); exists fl;
        split; [unfold status_flags in *; rewrite Hfds, Ho; exact Hst|];
        repeat split
      | destruct H as (_ & Hst1 & ->); eexists; split; [exact Hst1|];
        rewrite Z2N.id by (apply spec_attribs_nonneg; exact Hpos);
        cbn [with_caching with_behaviour with_v _v behaviour fd _caching
             _flags];
        split; [apply spec_attribs_outside|];
        split; [apply spec_behaviour_outside|]; repeat split .. ]. }
  destruct Hgen as (fl1 & Hst1 & Hout & Hb & Hc & Hfl & Hfd).
  exists fl, fl1. repeat split; try assumption.
  apply Happ. exact Hout.
Qed.

(** * fs_handle.hpp: move assignment *)

Lemma fs_handle_move_assign_lookup this_ o m a b :
  m !! this_ = Some a -> m !! o = Some b ->
  exists m',
    fs_handle_move_assign this_ o m = Some m' /\
    m' !! o = Some fs_handle_default /\
    (this_ <> o -> m' !! this_ = Some b) /\
    (forall p, p <> this_ -> p <> o -> m' !! p = m !! p).
Proof.
  intros Ha Hb. unfold fs_handle_move_assign. rewrite Ha, Hb. cbn zeta.
  assert (Hsrc : store_devid this_ (_devid b) m !! o
                 = Some (FsHandle (_devid b) (_inode b))).
  { unfold store_devid. rewrite lookup_alter. case_decide.
    - subst. rewrite Hb. reflexivity.
    - rewrite Hb. destruct b. reflexivity. }
  rewrite Hsrc. cbn [_inode].
  eexists. split; [reflexivity|]. unfold store_devid, store_inode.
  split; [|split].
  - rewrite !lookup_alter. repeat case_decide; try congruence;
      subst; rewrite ?Ha, ?Hb; reflexivity.
  - intros Hne. rewrite !lookup_alter. repeat case_decide; try congruence.
    rewrite Ha. destruct b. reflexivity.
  - intros p Hp Hp'. rewrite !lookup_alter_ne by congruence. reflexivity.
Qed.

(** X11: move assignment between two different [fs_handle] objects hands
    the device and inode numbers (hence [unique_id()]) over to the target
    and leaves the source with the identity of a default-constructed
    object; no other object changes. *)
Theorem fs_handle_move_assign_transfers this_ o m a b :
  this_ <> o ->
  m !! this_ = Some a -> m !! o = Some b ->
  exists m',
    fs_handle_move_assign this_ o m = Some m' /\
    unique_id <$> m' !! this_ = Some (st_dev b, st_ino b) /\
    unique_id <$> m' !! o = Some (0, 0) /\
    (forall p, p <> this_ -> p <> o -> m' !! p = m !! p).
Proof.
  intros Hne Ha Hb.
  destruct (fs_handle_move_assign_lookup this_ o m a b Ha Hb)
    as (m' & Hm & Ho & Ht & Hp).
  exists m'. split; [exact Hm|].
  rewrite (Ht Hne), Ho. repeat split. exact Hp.
Qed.

(** X12: move assignment of an [fs_handle] to itself is not guarded: the
    object ends with device and inode number zero, whatever they were, so
    its identity is lost. *)
Theorem fs_handle_self_move_assign_zeroes p m a :
  m !! p = Some a ->
  exists m',
    fs_handle_move_assign p p m = Some m' /\
    st_dev <$> m' !! p = Some 0 /\
    st_ino <$> m' !! p = Some 0 /\
    unique_id <$> m' !! p = Some (unique_id fs_handle_default) /\
    (forall q, q <> p -> m' !! q = m !! q).
Proof.
  intros Ha.
  destruct (fs_handle_move_assign_lookup p p m a a Ha Ha)
    as (m' & Hm & Ho & _ & Hp).
  exists m'. split; [exact Hm|]. rewrite Ho. repeat split.
  intros q Hq. apply Hp; exact Hq.
Qed.

(** * byte_socket_handle.hpp: comparing [ip::address] *)

Lemma byte_to_N_inj x y : Byte.to_N x = Byte.to_N y -> x = y.
Proof.
  intros H. pose proof (Byte.of_to_N x) as Hx.
  rewrite H, Byte.of_to_N in Hx. congruence.
Qed.

Lemma memcmp_eq_iff n : forall a b,
  length a = n -> length b = n -> (memcmp a b n = 0 <-> a = b).
Proof.
  induction n as [|n IH]; intros [|x a] [|y b] Ha Hb; cbn in *;
    try discriminate; [tauto|].
  destruct (N.eqb_spec (Byte.to_N x) (Byte.to_N y)) as [E|E].
  - apply byte_to_N_inj in E. subst y.
    rewrite (IH a b) by lia. split; congruence.
  - split; [lia|]. intros H. inversion H; subst. contradiction.
Qed.

Lemma memcmp_antisym n : forall a b,
  length a = n -> length b = n -> memcmp b a n = - memcmp a b n.
Proof.
  induction n as [|n IH]; intros [|x a] [|y b] Ha Hb; cbn in *;
    try discriminate; [reflexivity|].
  rewrite (N.eqb_sym (Byte.to_N y)).
  destruct (Byte.to_N x =? Byte.to_N y)%N; [apply IH; lia|lia].
Qed.

Lemma memcmp_lt_trans n : forall a b c,
  length a = n -> length b = n -> length c = n ->
  memcmp a b n < 0 -> memcmp b c n < 0 -> memcmp a c n < 0.
Proof.
  induction n as [|n IH]; intros [|x a] [|y b] [|z c] Ha Hb Hc; cbn in *;
    try discriminate; try lia.
  destruct (N.eqb_spec (Byte.to_N x) (Byte.to_N y)) as [E1|E1];
    destruct (N.eqb_spec (Byte.to_N y) (Byte.to_N z)) as [E2|E2];
    destruct (N.eqb_spec (Byte.to_N x) (Byte.to_N z)) as [E3|E3];
    try lia.
  apply IH; lia.
Qed.

(** X13: on addresses with 32 bytes of storage, [operator==] is true
    exactly when all 32 bytes agree, [operator!=] is its negation, and both
    are symmetric. *)
Theorem address_eq_iff_storage a o :
  length (_storage a) = sizeof_storage ->
  length (_storage o) = sizeof_storage ->
  (address_eq a o = true <-> _storage a = _storage o) /\
  address_ne a o = negb (address_eq a o) /\
  address_eq o a = address_eq a o.
Proof.
  intros Ha Ho. unfold address_eq, address_ne.
  pose proof (memcmp_eq_iff _ _ _ Ha Ho) as Hiff.
  pose proof (memcmp_antisym _ _ _ Ha Ho) as Hanti.
  repeat split.
  - intros H. apply Hiff. apply Z.eqb_eq in H. lia.
  - intros H. apply Z.eqb_eq. symmetry. apply Hiff. exact H.
  - rewrite Hanti.
    destruct (Z.eqb_spec 0 (memcmp (_storage a) (_storage o) sizeof_storage));
      destruct (Z.eqb_spec 0
                  (- memcmp (_storage a) (_storage o) sizeof_storage));
      try reflexivity; lia.
Qed.

(** X14: on addresses with 32 bytes of storage, [operator<] is a strict
    total order that agrees with [operator==]: it is irreflexive and
    transitive, and of [a < o], [a == o] and [o < a] exactly one holds. *)
Theorem address_lt_strict_total_order a o c :
  length (_storage a) = sizeof_storage ->
  length (_storage o) = sizeof_storage ->
  length (_storage c) = sizeof_storage ->
  address_lt a a = false /\
  (address_lt a o = true -> address_lt o c = true ->
   address_lt a c = true) /\
  (address_lt a o = true /\ address_eq a o = false /\
   address_lt o a = false \/
   address_lt a o = false /\ address_eq a o = true /\
   address_lt o a = false \/
   address_lt a o = false /\ address_eq a o = false /\
   address_lt o a = true).
Proof.
  intros Ha Ho Hc. unfold address_lt, address_eq.
  pose proof (memcmp_antisym _ _ _ Ha Ho) as Hanti.
  pose proof (proj2 (memcmp_eq_iff _ _ _ Ha Ha) eq_refl) as Hrefl.
  split; [|split].
  - rewrite Hrefl. reflexivity.
  - rewrite !Z.ltb_lt. apply memcmp_lt_trans; assumption.
  - rewrite Hanti.
    destruct (Z.ltb_spec (memcmp (_storage a) (_storage o) sizeof_storage) 0);
      destruct (Z.eqb_spec 0
                  (memcmp (_storage a) (_storage o) sizeof_storage));
      destruct (Z.ltb_spec
                  (- memcmp (_storage a) (_storage o) sizeof_storage) 0);
      try lia; auto.
Qed.

(** * byte_socket_handle.hpp: [listening_socket_handle] *)

Section ListeningSocket.

Variable is_multiplexable : handle -> bool.
Variable handle_close : method unit.
Variable valid : native_handle_type -> bool.
Variable debug : bool.
Variable _child_close_executed : Z.

(** X15: [set_multiplexer(c)] never touches the [handle] base.  On a handle
    that is not multiplexable it fails with [operation_not_supported] and
    changes nothing; on a multiplexable one it succeeds and
    [multiplexer()] then returns [c].  Calling it again with the same
    argument gives the same result and changes nothing more. *)
Theorem set_multiplexer_sets_or_refuses c s :
  let r := (set_multiplexer is_multiplexable c s).1 in
  let s1 := (set_multiplexer is_multiplexable c s).2 in
  lsh_handle s1 = lsh_handle s /\
  (if is_multiplexable (lsh_handle s)
   then r = success tt /\ multiplexer s1 = c
   else r = failure EOPNOTSUPP generic_category /\ s1 = s) /\
  set_multiplexer is_multiplexable c s1 = (r, s1).
Proof.
  unfold set_multiplexer, multiplexer.
  destruct (is_multiplexable (lsh_handle s)) eqn:Hm; cbn [negb].
  - destruct (Z.eqb_spec c (_ctx s)) as [Hc|Hc]; cbn [fst snd].
    + rewrite Hm. cbn [negb]. rewrite Hc, Z.eqb_refl. repeat split.
    + destruct (negb (_ctx s =? 0)); cbn [with_ctx lsh_handle _ctx];
        rewrite Hm; cbn [negb]; rewrite Z.eqb_refl; repeat split.
  - cbn [fst snd]. rewrite Hm. repeat split.
Qed.

(** X16: a listening socket that holds a multiplexer pointer but is not
    multiplexable cannot be closed: [close] returns
    [operation_not_supported] from [set_multiplexer(nullptr)], leaves the
    object and the kernel as they are and never reaches [handle::close],
    whatever that function does; so every further [close] fails the same
    way. *)
Theorem listening_socket_close_refused s k :
  _ctx s <> 0 ->
  is_multiplexable (lsh_handle s) = false ->
  listening_socket_close is_multiplexable handle_close valid debug
    _child_close_executed s k
  = (failure EOPNOTSUPP generic_category, s, k).
Proof.
  intros Hc Hm. unfold listening_socket_close, set_multiplexer.
  destruct (Z.eqb_spec (_ctx s) 0) as [|_]; [contradiction|].
  cbn [negb]. rewrite Hm. reflexivity.
Qed.

(** X17: in every other case [close] drops the multiplexer first and then
    returns what [handle::close] returns for the base (with the
    [_child_close_executed] bit set in a debug build when the handle is
    non-empty): afterwards [multiplexer()] is null even when
    [handle::close] failed. *)
Theorem listening_socket_close_drops_multiplexer s k :
  _ctx s = 0 \/ is_multiplexable (lsh_handle s) = true ->
  let h := lsh_handle s in
  let marked :=
    if debug && valid (_v h)
    then with_behaviour (Z.lor (behaviour (_v h)) _child_close_executed) h
    else h in
  let out := listening_socket_close is_multiplexable handle_close valid
               debug _child_close_executed s k in
  multiplexer out.1.2 = 0 /\
  (out.1.1, lsh_handle out.1.2, out.2) = handle_close marked k.
Proof.
  intros Hor. cbv zeta.
  unfold listening_socket_close, set_multiplexer, multiplexer.
  destruct (Z.eqb_spec (_ctx s) 0) as [Hz|Hnz]; cbn [negb].
  - destruct (handle_close _ k) as [[r h1] k1]. cbn. split; [exact Hz|].
    reflexivity.
  - destruct Hor as [|Hm]; [contradiction|]. rewrite Hm. cbn [negb].
    destruct (Z.eqb_spec 0 (_ctx s)) as [Hz|_].
    + congruence.
    + cbn [with_ctx lsh_handle _ctx].
      destruct (handle_close _ k) as [[r h1] k1]. cbn. split; reflexivity.
Qed.

End ListeningSocket.

(** * More on [current_path] and [set_kernel_caching] *)

Lemma current_path_found h k target :
  -2147483648 <= fd (_v h) < 2147483648 ->
  links k !! ("/proc/self/fd/" +:+ pretty (fd (_v h))) = Some target ->
  hd None (faults k) = None ->
  (current_path h k).1.1
  = success (if names_deleted (substring 0 (Z.to_nat 32768) target)
             then EmptyString
             else substring 0 (Z.to_nat 32768) target).
Proof.
  intros Hfd Hl Hf.
  rewrite <- (snprintf_proc_self_fd_int _ Hfd) in Hl.
  pose proof (readlink_found _ 32768 k target Hl Hf eq_refl) as Hr.
  destruct (readlink (snprintf_proc_self_fd 64 (fd (_v h))) 32768 k)
    as [[len data] k1] eqn:E.
  cbn [fst] in Hr. inversion Hr; subst len data. clear Hr.
  rewrite (current_path_read h k _ _ k1 E) by lia. reflexivity.
Qed.

(** X18: when the procfs link can be read, [current_path] returns the
    empty path exactly when the link text (cut to 32768 bytes) is empty or
    starts or ends with " (deleted)"; any other text, however short, is
    never reported as the empty path. *)
Theorem current_path_empty_iff h k target :
  -2147483648 <= fd (_v h) < 2147483648 ->
  links k !! ("/proc/self/fd/" +:+ pretty (fd (_v h))) = Some target ->
  hd None (faults k) = None ->
  let text := substring 0 (Z.to_nat 32768) target in
  (current_path h k).1.1 = success EmptyString <->
  text = EmptyString \/
  (exists s, text = deleted_marker +:+ s) \/
  (exists s, text = s +:+ deleted_marker).
Proof.
  intros Hfd Hl Hf text.
  rewrite (current_path_found h k target Hfd Hl Hf). fold text.
  pose proof (names_deleted_iff text) as Hiff.
  destruct (names_deleted text) eqn:Hn.
  - split; [|reflexivity]. intros _. right. apply Hiff. reflexivity.
  - split.
    + intros H. left. congruence.
    + intros [H|H]; [rewrite H; reflexivity|]. exfalso.
      apply Hiff in H. discriminate.
Qed.

(** * The further properties at concrete inputs *)

Lemma current_path_returns_link_text_witness :
  (current_path (example_handle all 0) example_live_kernel).1
  = (success "/tmp/a"%string, example_handle all 0).
Proof.
  destruct (current_path_returns_link_text (example_handle all 0)
              example_live_kernel "/tmp/a") as [H _].
  - cbn. lia.
  - vm_compute. reflexivity.
  - reflexivity.
  - etransitivity; [exact H|]. vm_compute. reflexivity.
Defined.

Lemma proc_self_fd_path_fits_witness :
  snprintf_proc_self_fd 64 (-2147483648) = "/proc/self/fd/-2147483648"%string.
Proof.
  etransitivity.
  - apply (proc_self_fd_path_fits (-2147483648)). lia.
  - vm_compute. reflexivity.
Defined.


Lemma destroy_stale_descriptor_aborts_witness :
  exists k1,
    destroy posix_valid (example_handle all 0) empty_kernel = Aborted k1 /\
    fds k1 = fds empty_kernel.
Proof.
  apply (destroy_stale_descriptor_aborts posix_valid (example_handle all 0)
           empty_kernel).
  - reflexivity.
  - reflexivity.
Defined.

Lemma clone_survives_close_of_original_witness :
  let h := example_handle all 0 in
  let k := example_kernel 8 [] in
  let k1 := (clone h k).2 in
  let k2 := (close posix_valid h k1).2 in
  status_flags k2 0 = status_flags k 3 /\ fds k2 !! 3 = None.
Proof.
  cbv zeta.
  destruct (clone_survives_close_of_original posix_valid
              (example_handle all 0) (example_kernel 8 [])
              (Handle all 0 (NativeHandle 0 0))
              (example_handle all 0)
              (clone (example_handle all 0) (example_kernel 8 [])).2
              (with_v native_handle_default (example_handle all 0))
              (close posix_valid (example_handle all 0)
                 (clone (example_handle all 0) (example_kernel 8 [])).2).2)
    as (_ & _ & _ & Hs & Hn).
  - reflexivity.
  - vm_compute. reflexivity.
  - vm_compute. reflexivity.
  - split; assumption.
Defined.

(** [dup] fails with errno 24. *)
Lemma clone_adds_one_descriptor_or_none_witness :
  let k := example_kernel 0 [Some 24] in
  fds (clone (example_handle all 0) k).2 = fds k.
Proof.
  cbv zeta.
  destruct (clone_adds_one_descriptor_or_none (example_handle all 0)
              (example_kernel 0 [Some 24])
              (failure 24 system_category) (example_handle all 0)
              (clone (example_handle all 0) (example_kernel 0 [Some 24])).2)
    as (_ & H & _).
  - vm_compute. reflexivity.
  - apply H. reflexivity.
Defined.

Lemma set_append_only_touches_only_append_witness :
  let h := example_handle all 64 in
  let k := example_kernel 2 [] in
  let out := set_append_only true h k in
  exists fl fl1,
    status_flags k 3 = Some fl /\
    status_flags out.2 3 = Some fl1 /\
    Z.land (Z.of_N fl1) (Z.lnot O_APPEND)
      = Z.land (Z.of_N fl) (Z.lnot O_APPEND) /\
    Z.land (Z.of_N fl1) O_APPEND = O_APPEND.
Proof.
  cbv zeta.
  destruct (set_append_only_touches_only_append true
              (example_handle all 64) (example_kernel 2 [])
              (set_append_only true (example_handle all 64)
                 (example_kernel 2 [])).1.2
              (set_append_only true (example_handle all 64)
                 (example_kernel 2 [])).2)
    as (fl & fl1 & H1 & H2 & H3 & H4 & _).
  - vm_compute. reflexivity.
  - exists fl, fl1. repeat split; assumption.
Defined.

Lemma set_append_only_idempotent_witness :
  let h := example_handle all 0 in
  let k := example_kernel 2 [] in
  let s1 := set_append_only true h k in
  let s2 := set_append_only true s1.1.2 s1.2 in
  status_flags s2.2 3 = status_flags s1.2 3 /\ s2.1.2 = s1.1.2.
Proof.
  cbv zeta.
  apply (set_append_only_idempotent true (example_handle all 0)
           (example_kernel 2 [])).
  - vm_compute. reflexivity.
  - vm_compute. reflexivity.
Defined.

Lemma set_kernel_caching_touches_only_sync_direct_witness :
  let h := example_handle none 0 in
  let k := example_kernel (Z.to_N O_APPEND) [] in
  let out := set_kernel_caching all h k in
  exists fl fl1,
    status_flags k 3 = Some fl /\
    status_flags out.2 3 = Some fl1 /\
    Z.land (Z.of_N fl1) O_APPEND = Z.land (Z.of_N fl) O_APPEND /\
    _caching out.1.2 = all.
Proof.
  cbv zeta.
  destruct (set_kernel_caching_touches_only_sync_direct all
              (example_handle none 0) (example_kernel (Z.to_N O_APPEND) [])
              (set_kernel_caching all (example_handle none 0)
                 (example_kernel (Z.to_N O_APPEND) [])).1.2
              (set_kernel_caching all (example_handle none 0)
                 (example_kernel (Z.to_N O_APPEND) [])).2)
    as (fl & fl1 & H1 & H2 & _ & H4 & _ & H6 & _).
  - vm_compute. reflexivity.
  - exists fl, fl1. repeat split; assumption.
Defined.

Lemma fs_handle_move_assign_transfers_witness :
  exists m',
    fs_handle_move_assign 1 2 example_objects = Some m' /\
    unique_id <$> m' !! 1%nat = Some (2050, 99) /\
    unique_id <$> m' !! 2%nat = Some (0, 0).
Proof.
  destruct (fs_handle_move_assign_transfers 1 2 example_objects
              (FsHandle 2049 77) (FsHandle 2050 99))
    as (m' & Hm & H1 & H2 & _).
  - discriminate.
  - reflexivity.
  - reflexivity.
  - exists m'. repeat split; assumption.
Defined.

Lemma fs_handle_self_move_assign_zeroes_witness :
  exists m',
    fs_handle_move_assign 1 1 example_objects = Some m' /\
    st_dev <$> m' !! 1%nat = Some 0 /\
    st_ino <$> m' !! 1%nat = Some 0.
Proof.
  destruct (fs_handle_self_move_assign_zeroes 1 example_objects
              (FsHandle 2049 77))
    as (m' & Hm & H1 & H2 & _).
  - reflexivity.
  - exists m'. repeat split; assumption.
Defined.

Lemma address_eq_iff_storage_witness :
  address_eq (example_address Byte.x7f) (example_address Byte.x7f) = true /\
  address_ne (example_address Byte.x7f) (example_address Byte.x0a)
  = negb (address_eq (example_address Byte.x7f) (example_address Byte.x0a)).
Proof.
  split.
  - apply (address_eq_iff_storage (example_address Byte.x7f)
             (example_address Byte.x7f)); reflexivity.
  - apply (address_eq_iff_storage (example_address Byte.x7f)
             (example_address Byte.x0a)); reflexivity.
Defined.

Lemma address_lt_strict_total_order_witness :
  address_lt (example_address Byte.x0a) (example_address Byte.x0a) = false /\
  (address_lt (example_address Byte.x0a) (example_address Byte.x7f) = true ->
   address_lt (example_address Byte.x7f) (example_address Byte.xc0) = true ->
   address_lt (example_address Byte.x0a) (example_address Byte.xc0) = true).
Proof.
  destruct (address_lt_strict_total_order (example_address Byte.x0a)
              (example_address Byte.x7f) (example_address Byte.xc0))
    as (H1 & H2 & _); try reflexivity.
  split; assumption.
Defined.

Lemma listening_socket_close_refused_witness :
  listening_socket_close (fun _ => false) (close posix_valid) posix_valid
    false 0 (example_listener 5) (example_kernel 0 [])
  = (failure EOPNOTSUPP generic_category, example_listener 5,
     example_kernel 0 []).
Proof.
  apply (listening_socket_close_refused (fun _ => false)
           (close posix_valid) posix_valid false 0 (example_listener 5)
           (example_kernel 0 [])).
  - discriminate.
  - reflexivity.
Defined.

(** The release of the descriptor fails with errno 4; the multiplexer is
    dropped all the same. *)
Lemma listening_socket_close_drops_multiplexer_witness :
  let out := listening_socket_close (fun _ => true) (close posix_valid)
               posix_valid false 0 (example_listener 5)
               (example_kernel 0 [Some 4]) in
  multiplexer out.1.2 = 0 /\
  (out.1.1, lsh_handle out.1.2, out.2)
  = close posix_valid (example_handle all 0) (example_kernel 0 [Some 4]).
Proof.
  cbv zeta.
  apply (listening_socket_close_drops_multiplexer (fun _ => true)
           (close posix_valid) posix_valid false 0 (example_listener 5)
           (example_kernel 0 [Some 4])).
  right. reflexivity.
Defined.

Lemma current_path_empty_iff_witness :
  (current_path (example_handle all 0) (example_kernel 0 [])).1.1
  = success EmptyString.
Proof.
  apply (current_path_empty_iff (example_handle all 0) (example_kernel 0 [])
           "/tmp/a (deleted)").
  - cbn. lia.
  - vm_compute. reflexivity.
  - reflexivity.
  - right. right. exists "/tmp/a"%string. vm_compute. reflexivity.
Defined.


Lemma set_kernel_caching_stable_when_stored_agrees_witness :
  let h := example_handle reads 64 in
  let k := example_kernel 0 [] in
  let s1 := set_kernel_caching reads h k in
  let s2 := set_kernel_caching reads s1.1.2 s1.2 in
  status_flags s2.2 3 = status_flags s1.2 3 /\ s2.1.2 = s1.1.2.
Proof.
  cbv zeta.
  apply (set_kernel_caching_stable_when_stored_agrees reads
           (example_handle reads 64) (example_kernel 0 [])).
  - reflexivity.
  - vm_compute. reflexivity.
  - vm_compute. reflexivity.
Defined.
